(** * CRM GraphQL schema: validation and mutation logic

    A shallow embedding of [crm/schema.py], [crm/models.py] and
    [seed_db.py]: the mutations [CreateCustomer], [BulkCreateCustomers],
    [CreateProduct] and [CreateOrder], the phone validator, the
    filter-payload helper, the list resolvers and the seeding script, run
    against an explicit in-memory picture of the three tables and of the
    order/product link table.

    Text is modelled as [string] over ASCII; decimals are finite
    [coefficient * 10 ^ exponent] pairs; the data store is passed in and
    handed back by every mutation. *)

From Stdlib Require Import ZArith String Ascii DecimalString DecimalZ
  DecimalPos Lia.
From stdpp Require Import gmap strings list sorting.

Open Scope string_scope.
Open Scope list_scope.
Open Scope Z_scope.

(** ** Python built-ins used by the schema *)

Module Py.

(** [str.isspace] on one ASCII character: TAB, LF, VT, FF, CR, the four
    separators 0x1c-0x1f, and the blank. *)
Definition isspace (c : ascii) : bool :=
  let n := N_of_ascii c in
  ((9 <=? n) && (n <=? 13) || (28 <=? n) && (n <=? 32))%N.

(** Blanks dropped from the left, for a given notion of blank. *)
Fixpoint ltrim (blank : ascii -> bool) (s : string) : string :=
  match s with
  | String c t => if blank c then ltrim blank t else s
  | EmptyString => EmptyString
  end.

(** Blanks dropped from the right: a character is kept when it is not a
    blank or when something survives to its right. *)
Fixpoint rtrim (blank : ascii -> bool) (s : string) : string :=
  match s with
  | String c t =>
      match rtrim blank t with
      | EmptyString => if blank c then EmptyString else String c EmptyString
      | t' => String c t'
      end
  | EmptyString => EmptyString
  end.

Definition lstrip (s : string) : string := ltrim isspace s.

Definition rstrip (s : string) : string := rtrim isspace s.

(** [s.strip()] *)
Definition strip (s : string) : string := rstrip (lstrip s).

Definition lower_char (c : ascii) : ascii :=
  let n := N_of_ascii c in
  if ((65 <=? n) && (n <=? 90))%N then ascii_of_N (n + 32) else c.

(** [s.lower()] *)
Fixpoint lower (s : string) : string :=
  match s with
  | String c t => String (lower_char c) (lower t)
  | EmptyString => EmptyString
  end.

(** Truthiness of a [str]: non-empty. *)
Definition truthy (s : string) : bool :=
  match s with EmptyString => false | _ => true end.

(** [sep.join(parts)] *)
Fixpoint join (sep : string) (parts : list string) : string :=
  match parts with
  | [] => ""
  | [p] => p
  | p :: rest => p +:+ sep +:+ join sep rest
  end.

(** [str(n)] for an [int]. *)
Definition str (n : Z) : string := NilZero.string_of_int (Z.to_int n).

(** [f"{x}"] for a value that is a [str] or [None]. *)
Definition fmt (x : option string) : string :=
  match x with Some s => s | None => "None" end.

Definition isdigit (c : ascii) : bool :=
  let n := N_of_ascii c in ((48 <=? n) && (n <=? 57))%N.

Definition digit_value (c : ascii) : Z := Z.of_N (N_of_ascii c) - 48.

(** Digits of an integer literal, read left to right with the value so
    far in [acc]; [prev_digit] tells whether the last character read was
    a digit, since an underscore is only allowed between two digits. *)
Fixpoint int_digits (s : string) (acc : Z) (prev_digit : bool) : option Z :=
  match s with
  | EmptyString => if prev_digit then Some acc else None
  | String c t =>
      if isdigit c then int_digits t (10 * acc + digit_value c) true
      else if Ascii.eqb c "_" then
        (if prev_digit then int_digits t acc false else None)
      else None
  end.

(** The blanks that [int] skips around an ASCII literal: TAB, LF, VT, FF,
    CR and the blank, without the four separators. *)
Definition isspace_c (c : ascii) : bool :=
  let n := N_of_ascii c in
  ((9 <=? n) && (n <=? 13) || (n =? 32))%N.

(** [int(x)] on a [str] or [None]: [None] here stands for the
    [TypeError]/[ValueError] that the callers catch. Surrounding blanks
    are dropped, one sign is allowed, then base-ten digits. The
    interpreter's cap on the length of a literal is not modelled. *)
Definition int (x : option string) : option Z :=
  match x with
  | None => None
  | Some s =>
      match rtrim isspace_c (ltrim isspace_c s) with
      | String "+" t => int_digits t 0 false
      | String "-" t => Z.opp <$> int_digits t 0 false
      | t => int_digits t 0 false
      end
  end.

(** [list(dict.fromkeys(xs))]: drop repeats, keep the first occurrence
    of every key, in order of first appearance. *)
Fixpoint fromkeys_acc (seen : list Z) (xs : list Z) : list Z :=
  match xs with
  | [] => []
  | x :: rest =>
      if bool_decide (x ∈ seen) then fromkeys_acc seen rest
      else x :: fromkeys_acc (x :: seen) rest
  end.

Definition fromkeys (xs : list Z) : list Z := fromkeys_acc [] xs.

(** [sorted(xs)] on integers. *)
Definition sorted (xs : list Z) : list Z := merge_sort Z.le xs.

End Py.

(** ** [decimal.Decimal], finite values *)

Module Decimal.

(** A finite decimal [coef * 10 ^ exp]; the sign is the sign of [coef].
    [Decimal('0.01')] is [{| coef := 1; exp := -2 |}]. *)
Record t : Type := mk { coef : Z; exp : Z }.

(** Precision of the default arithmetic context. *)
Definition prec : Z := 28.

Definition zero : t := mk 0 0.

(** [d <= 0] *)
Definition le_zero (d : t) : bool := coef d <=? 0.

(** The value, counted in units of [10 ^ e], of a decimal whose exponent
    is at least [e]. *)
Definition scale_to (e : Z) (d : t) : Z := coef d * 10 ^ (exp d - e).

(** [a + b]: exact, at the smaller exponent. Sums are taken to stay
    inside the 28 significant digits of the context, as they do for
    columns of at most 12 digits. *)
Definition add (a b : t) : t :=
  let e := Z.min (exp a) (exp b) in
  mk (scale_to e a + scale_to e b) e.

(** [sum(ds, Decimal('0'))] *)
Definition sum (ds : list t) : t := fold_left add ds zero.

(** Rounding of [n / 10 ^ k] to an integer, ties away from zero
    ([ROUND_HALF_UP]), for [k > 0]. *)
Definition div_half_up (n : Z) (k : Z) : Z :=
  let p := 10 ^ k in
  let q := Z.abs n / p in
  let r := Z.abs n mod p in
  Z.sgn n * (if p <=? 2 * r then q + 1 else q).

(** [d.quantize(Decimal('0.01'), rounding=ROUND_HALF_UP)]. [None] is the
    [InvalidOperation] raised when the result would need more than
    [prec] digits. *)
Definition quantize_cents (d : t) : option t :=
  let c :=
    if -2 <=? exp d then coef d * 10 ^ (exp d + 2)
    else div_half_up (coef d) (-2 - exp d) in
  if 10 ^ prec <=? Z.abs c then None else Some (mk c (-2)).

(** [0 < d] as a proposition on the value. *)
Definition positive (d : t) : Prop := 0 < coef d.

End Decimal.

(** ** Regular expressions, as far as [PHONE_REGEX] needs them *)

Module Re.

(** [Chr c] is a literal, [Digit] is [\d], [Rep a lo hi] is [a{lo,hi}]. *)
Inductive t : Type :=
| Chr (c : ascii)
| Digit
| Seq (a b : t)
| Alt (a b : t)
| Rep (a : t) (lo hi : nat).

(** All the ways to match between [lo] and [hi] copies of a pattern at
    the front of [s]; [f] gives the remainders after one copy. *)
Fixpoint rep (f : string -> list string) (lo hi : nat) (s : string)
  : list string :=
  (match lo with O => [s] | S _ => [] end) ++
  match hi with
  | O => []
  | S hi' => flat_map (rep f (Nat.pred lo) hi') (f s)
  end.

(** [run r s]: what is left of [s] after each way of matching [r] at its
    front. *)
Fixpoint run (r : t) (s : string) : list string :=
  match r with
  | Chr c =>
      match s with
      | String x rest => if Ascii.eqb x c then [rest] else []
      | EmptyString => []
      end
  | Digit =>
      match s with
      | String x rest => if Py.isdigit x then [rest] else []
      | EmptyString => []
      end
  | Seq a b => flat_map (run b) (run a s)
  | Alt a b => run a s ++ run b s
  | Rep a lo hi => rep (run a) lo hi s
  end.

Definition newline : ascii := "010".

(** Where [$] matches: at the very end, and just before a newline that
    is the last character. *)
Definition at_dollar (rest : string) : bool :=
  match rest with
  | EmptyString => true
  | String c EmptyString => Ascii.eqb c newline
  | _ => false
  end.

(** [re.compile("^(?:" r ")$").match(s)], as a truth value. *)
Definition match_ (r : t) (s : string) : bool :=
  existsb at_dollar (run r s).

End Re.

(** ** [crm/models.py] *)

Module Customer.
(** [id] is [None] for an instance that has not been saved yet. *)
Record t : Type := mk
  { id : option Z; name : string; email : string; phone : string }.
End Customer.

Module Product.
Record t : Type := mk
  { id : Z; name : string; price : Decimal.t; stock : Z }.
End Product.

Module Order.
Record t : Type := mk
  { id : Z; customer : Customer.t; total_amount : Decimal.t;
    order_date : Z }.
End Order.

(** The tables. [order_products] is the many-to-many link table, one
    [(order id, product id)] pair per row. The audit timestamps of
    [TimeStampedModel] play no part in the logic and are left out. *)
Module Store.

Record t : Type := mk
  { customers : list Customer.t;
    products : list Product.t;
    orders : list Order.t;
    order_products : list (Z * Z) }.

Definition empty : t := mk [] [] [] [].

(** The next automatic primary key of a table whose keys are [ids]. *)
Definition next_pk (ids : list Z) : Z := 1 + foldr Z.max 0 ids.

Definition customer_ids (db : t) : list Z :=
  omap Customer.id (customers db).

(** [instance.save()] on a fresh [Customer]. *)
Definition save_customer (db : t) (c : Customer.t) : Customer.t * t :=
  let saved :=
    Customer.mk (Some (next_pk (customer_ids db)))
      (Customer.name c) (Customer.email c) (Customer.phone c) in
  (saved,
   mk (customers db ++ [saved]) (products db) (orders db)
      (order_products db)).

(** [Customer.objects.bulk_create(pending)]: the rows are inserted in
    order and come back with their keys. *)
Fixpoint bulk_create (db : t) (pending : list Customer.t)
  : list Customer.t * t :=
  match pending with
  | [] => ([], db)
  | c :: rest =>
      let '(saved, db1) := save_customer db c in
      let '(others, db2) := bulk_create db1 rest in
      (saved :: others, db2)
  end.

(** [field__iexact=value] *)
Definition iexact (field value : string) : bool :=
  String.eqb (Py.lower field) (Py.lower value).

(** [Customer.objects.filter(email__iexact=email).exists()] *)
Definition email_exists (db : t) (email : string) : bool :=
  existsb (fun c => iexact (Customer.email c) email) (customers db).

(** [Customer.objects.get(pk=pk)]; [None] is [Customer.DoesNotExist]. *)
Definition get_customer (db : t) (pk : Z) : option Customer.t :=
  find (fun c => bool_decide (Customer.id c = Some pk)) (customers db).

(** [Product.objects.filter(id__in=ids)]. The rows are listed in table
    order; the order in which the query yields them enters neither the
    sum of the prices nor the set of linked products. *)
Definition products_in (db : t) (ids : list Z) : list Product.t :=
  filter (fun p => Product.id p ∈ ids) (products db).

(** [Product.objects.create(...)] *)
Definition create_product (db : t) (name : string) (price : Decimal.t)
    (stock : Z) : Product.t * t :=
  let p := Product.mk (next_pk (Product.id <$> products db))
             name price stock in
  (p, mk (customers db) (products db ++ [p]) (orders db)
         (order_products db)).

(** [Order.objects.create(...)] followed by [order.products.set(ps)] on
    the new order, inside one transaction. *)
Definition create_order (db : t) (customer : Customer.t)
    (total_amount : Decimal.t) (order_date : Z) (ps : list Product.t)
  : Order.t * t :=
  let o := Order.mk (next_pk (Order.id <$> orders db))
             customer total_amount order_date in
  (o, mk (customers db) (products db) (orders db ++ [o])
         (order_products db ++
            ((fun p => (Order.id o, Product.id p)) <$> ps))).

(** Ids of the products linked to an order, one per link row. *)
Definition linked_products (db : t) (order_id : Z) : list Z :=
  snd <$> filter (fun l => l.1 = order_id) (order_products db).

End Store.

(** ** Exceptions that leave a resolver *)

Inductive exn : Type :=
| GraphQLError (message : string)
| InvalidOperation
| IntegrityError.

Inductive outcome (A : Type) : Type :=
| Return (a : A)
| Raise (e : exn).

Arguments Return {A} a.
Arguments Raise {A} e.

(** ** [crm/schema.py] *)

Module CustomerInput.
Record t : Type := mk
  { name : string; email : string; phone : option string }.
End CustomerInput.

Module ProductInput.
Record t : Type := mk
  { name : string; price : Decimal.t; stock : option Z }.
End ProductInput.

Module OrderInput.
(** [product_ids] is a required list whose items may be null. *)
Record t : Type := mk
  { customer_id : string; product_ids : list (option string);
    order_date : option Z }.
End OrderInput.

(** [^(?:\+\d{7,15}|\d{3}-\d{3}-\d{4})$] *)
Definition PHONE_REGEX : Re.t :=
  Re.Alt
    (Re.Seq (Re.Chr "+") (Re.Rep Re.Digit 7 15))
    (Re.Seq (Re.Rep Re.Digit 3 3)
       (Re.Seq (Re.Chr "-")
          (Re.Seq (Re.Rep Re.Digit 3 3)
             (Re.Seq (Re.Chr "-") (Re.Rep Re.Digit 4 4))))).

(** [inl messages] is [ValidationError] with [exc.messages = messages];
    [inr phone] is the normal return. *)
Definition _validate_phone (phone : option string)
  : list string + option string :=
  match phone with
  | Some p =>
      if Py.truthy p && negb (Re.match_ PHONE_REGEX p)
      then inl ["Phone number must be +<digits> or 123-456-7890 format."]
      else inr phone
  | None => inr phone
  end.

(** [errors.extend(exc.messages)] around a call of [_validate_phone]. *)
Definition extend_phone_errors (errors : list string)
    (phone : option string) : list string :=
  match _validate_phone phone with
  | inl messages => errors ++ messages
  | inr _ => errors
  end.

(** [phone or ""] *)
Definition or_empty (phone : option string) : string := default "" phone.

Module CreateCustomer.

Record t : Type := mk
  { customer : option Customer.t; message : option string;
    errors : list string }.

Definition mutate (db : Store.t) (input : CustomerInput.t) : t * Store.t :=
  let errors : list string := [] in
  let name := Py.strip (CustomerInput.name input) in
  let errors :=
    if negb (Py.truthy name) then errors ++ ["Name is required."]
    else errors in
  let errors := extend_phone_errors errors (CustomerInput.phone input) in
  let email := Py.lower (Py.strip (CustomerInput.email input)) in
  let errors :=
    if Store.email_exists db email then errors ++ ["Email already exists."]
    else errors in
  match errors with
  | _ :: _ => (mk None None errors, db)
  | [] =>
      let customer :=
        Customer.mk None name email
          (Py.strip (or_empty (CustomerInput.phone input))) in
      let '(customer, db) := Store.save_customer db customer in
      (mk (Some customer) (Some "Customer created successfully.") [], db)
  end.

End CreateCustomer.

Module BulkCreateCustomers.

Record t : Type := mk
  { customers : list Customer.t; errors : list string }.

(** The set comprehension over [values_list("email", flat=True)]. *)
Definition existing_emails (db : Store.t) : gset string :=
  list_to_set
    (Py.lower <$>
       filter (fun e => Py.truthy e = true)
         (Customer.email <$> Store.customers db)).

(** The three accumulators of the loop. *)
Record acc : Type := mk_acc
  { pending : list Customer.t; acc_errors : list string;
    seen_emails : gset string }.

Definition email_of (payload : CustomerInput.t) : string :=
  Py.lower (Py.strip (CustomerInput.email payload)).

Definition name_of (payload : CustomerInput.t) : string :=
  Py.strip (CustomerInput.name payload).

Definition phone_of (payload : CustomerInput.t) : string :=
  match CustomerInput.phone payload with
  | Some p => if Py.truthy p then Py.strip (or_empty (Some p)) else ""
  | None => ""
  end.

(** [row_errors] as it stands at the end of the checks of one row. *)
Definition row_errors (existing seen : gset string)
    (payload : CustomerInput.t) : list string :=
  let email := email_of payload in
  let name := name_of payload in
  let phone := phone_of payload in
  let row_errors : list string := [] in
  let row_errors :=
    if negb (Py.truthy name) then row_errors ++ ["Name is required."]
    else row_errors in
  let row_errors :=
    if negb (Py.truthy email) then row_errors ++ ["Email is required."]
    else if bool_decide (email ∈ existing)
    then row_errors ++ ["Email already exists."]
    else if bool_decide (email ∈ seen)
    then row_errors ++ ["Duplicate email within request."]
    else row_errors in
  extend_phone_errors row_errors (Some phone).

(** [f"Entry {index + 1}: {'; '.join(row_errors)}"] *)
Definition entry (index : nat) (row_errors : list string) : string :=
  "Entry " +:+ Py.str (Z.of_nat index + 1) +:+ ": " +:+
    Py.join "; " row_errors.

(** One turn of the loop. *)
Definition body (existing : gset string) (index : nat)
    (payload : CustomerInput.t) (a : acc) : acc :=
  match row_errors existing (seen_emails a) payload with
  | (_ :: _) as errs =>
      mk_acc (pending a) (acc_errors a ++ [entry index errs])
        (seen_emails a)
  | [] =>
      mk_acc
        (pending a ++
           [Customer.mk None (name_of payload) (email_of payload)
              (phone_of payload)])
        (acc_errors a)
        ({[email_of payload]} ∪ seen_emails a)
  end.

(** [for index, payload in enumerate(input)], from [index] on. *)
Fixpoint loop (existing : gset string) (index : nat)
    (input : list CustomerInput.t) (a : acc) : acc :=
  match input with
  | [] => a
  | payload :: rest =>
      loop existing (S index) rest (body existing index payload a)
  end.

Definition init : acc := mk_acc [] [] ∅.

Definition mutate (db : Store.t) (input : list CustomerInput.t)
  : outcome (t * Store.t) :=
  match input with
  | [] => Raise (GraphQLError "Input list cannot be empty.")
  | _ :: _ =>
      let a := loop (existing_emails db) 0 input init in
      let '(created, db) :=
        match pending a with
        | _ :: _ => Store.bulk_create db (pending a)
        | [] => ([], db)
        end in
      Return (mk created (acc_errors a), db)
  end.

End BulkCreateCustomers.

Module CreateProduct.

Record t : Type := mk
  { product : option Product.t; errors : list string }.

Definition mutate (db : Store.t) (input : ProductInput.t)
  : outcome (t * Store.t) :=
  let errors : list string := [] in
  let price := ProductInput.price input in
  let stock := default 0 (ProductInput.stock input) in
  let errors :=
    if Decimal.le_zero price then errors ++ ["Price must be positive."]
    else errors in
  let errors :=
    if stock <? 0 then errors ++ ["Stock cannot be negative."]
    else errors in
  match errors with
  | _ :: _ => Return (mk None errors, db)
  | [] =>
      match Decimal.quantize_cents price with
      | None => Raise InvalidOperation
      | Some rounded =>
          let '(product, db) :=
            Store.create_product db
              (Py.strip (ProductInput.name input)) rounded stock in
          Return (mk (Some product) [], db)
      end
  end.

End CreateProduct.

Module CreateOrder.

Record t : Type := mk
  { order : option Order.t; errors : list string }.

(** [for raw_id in input.product_ids or []], with the list built so far
    and the errors so far. *)
Fixpoint parse_product_ids (raw_ids : list (option string))
    (product_ids : list Z) (errors : list string)
  : list Z * list string :=
  match raw_ids with
  | [] => (product_ids, errors)
  | raw_id :: rest =>
      match Py.int raw_id with
      | Some n => parse_product_ids rest (product_ids ++ [n]) errors
      | None =>
          parse_product_ids rest product_ids
            (errors ++ ["Invalid product ID: " +:+ Py.fmt raw_id])
      end
  end.

(** [sorted(set(product_ids) - {product.id for product in products})] *)
Definition missing_product_ids (product_ids : list Z)
    (products : list Product.t) : list Z :=
  Py.sorted
    (elements
       ((list_to_set product_ids : gset Z) ∖
          list_to_set (Product.id <$> products))).

(** [now] is the clock read by the [order_date] default. *)
Definition mutate (db : Store.t) (now : Z) (input : OrderInput.t)
  : outcome (t * Store.t) :=
  let errors : list string := [] in
  let '(customer_id, errors) :=
    match Py.int (Some (OrderInput.customer_id input)) with
    | Some n => (Some n, errors)
    | None => (None, errors ++ ["Invalid customer ID."])
    end in
  let '(product_ids, errors) :=
    parse_product_ids (OrderInput.product_ids input) [] errors in
  let product_ids := Py.fromkeys product_ids in
  let errors :=
    match product_ids with
    | [] => errors ++ ["At least one product must be provided."]
    | _ :: _ => errors
    end in
  let '(customer, errors) :=
    match customer_id with
    | Some pk =>
        match Store.get_customer db pk with
        | Some c => (Some c, errors)
        | None => (None, errors ++ ["Customer not found."])
        end
    | None => (None, errors)
    end in
  let products :=
    match product_ids with
    | [] => []
    | _ :: _ => Store.products_in db product_ids
    end in
  let missing := missing_product_ids product_ids products in
  let errors :=
    match missing with
    | _ :: _ =>
        errors ++
          ["Invalid product ID(s): " +:+ Py.join ", " (Py.str <$> missing)]
    | [] => errors
    end in
  match errors with
  | _ :: _ => Return (mk None errors, db)
  | [] =>
      let total_amount := Decimal.sum (Product.price <$> products) in
      match Decimal.quantize_cents total_amount with
      | None => Raise InvalidOperation
      | Some total_amount =>
          let order_date := default now (OrderInput.order_date input) in
          match customer with
          | None => Raise IntegrityError
          | Some c =>
              let '(order, db) :=
                Store.create_order db c total_amount order_date products in
              Return (mk (Some order) [], db)
          end
      end
  end.

End CreateOrder.

(** ** Filtered list queries *)

Section Filtering.

(** Filter values and querysets are whatever the filter-set works on. *)
Variables Value Queryset : Type.

(** What [_filter_queryset] uses of [filterset_cls(data=..., queryset=...)]:
    its [errors], a field-to-messages dictionary in insertion order, and
    its [qs]. *)
Record FilterSet : Type := mk_filterset
  { fs_errors : gmap string Value -> Queryset -> list (string * list string);
    fs_qs : gmap string Value -> Queryset -> Queryset }.

(** [filterset.is_valid()]: a bound filter-set is valid when its form has
    no errors. *)
Definition is_valid (fs : FilterSet) (data : gmap string Value)
    (queryset : Queryset) : bool :=
  match fs_errors fs data queryset with [] => true | _ :: _ => false end.

(** [getattr(filter_input, attr, None)]: a field that was left out and
    a field given as null both read as [None]. *)
Definition getattr (filter_input : gmap string (option Value))
    (attr : string) : option Value :=
  mjoin (filter_input !! attr).

(** The loop that fills [payload]. *)
Fixpoint build_payload (filter_input : gmap string (option Value))
    (filter_mapping : list (string * string))
    (payload : gmap string Value) : gmap string Value :=
  match filter_mapping with
  | [] => payload
  | (attr, lookup) :: rest =>
      match getattr filter_input attr with
      | Some value =>
          build_payload filter_input rest (<[lookup := value]> payload)
      | None => build_payload filter_input rest payload
      end
  end.

(** The [messages] list. *)
Definition error_messages (errors : list (string * list string))
  : list string :=
  flat_map (fun fe => (fun error => fe.1 +:+ ": " +:+ error) <$> fe.2) errors.

(** [x or y] on strings. *)
Definition str_or (x y : string) : string := if Py.truthy x then x else y.

Definition _filter_queryset (queryset : Queryset)
    (filter_input : option (gmap string (option Value)))
    (filter_mapping : list (string * string)) (filterset_cls : FilterSet)
  : outcome Queryset :=
  match filter_input with
  | None => Return (fs_qs filterset_cls ∅ queryset)
  | Some fi =>
      if bool_decide (fi = ∅)
      then Return (fs_qs filterset_cls ∅ queryset)
      else
        let payload := build_payload fi filter_mapping ∅ in
        if is_valid filterset_cls payload queryset
        then Return (fs_qs filterset_cls payload queryset)
        else
          let messages :=
            error_messages (fs_errors filterset_cls payload queryset) in
          Raise (GraphQLError
                   (str_or (Py.join "; " messages)
                      "Invalid filter arguments."))
  end.

End Filtering.

Arguments fs_errors {Value Queryset} _ _ _.
Arguments fs_qs {Value Queryset} _ _ _.
Arguments is_valid {Value Queryset} _ _ _.
Arguments getattr {Value} _ _.
Arguments build_payload {Value} _ _ _.
Arguments _filter_queryset {Value Queryset} _ _ _ _.

(** The three mappings of the list resolvers, in dictionary order. *)
Definition customer_filter_mapping : list (string * string) :=
  [("name_icontains", "name_icontains");
   ("email_icontains", "email_icontains");
   ("created_at_gte", "created_at_gte");
   ("created_at_lte", "created_at_lte");
   ("phone_pattern", "phone_pattern")].

Definition product_filter_mapping : list (string * string) :=
  [("name_icontains", "name_icontains");
   ("price_gte", "price_gte");
   ("price_lte", "price_lte");
   ("stock_gte", "stock_gte");
   ("stock_lte", "stock_lte")].

Definition order_filter_mapping : list (string * string) :=
  [("total_amount_gte", "total_amount_gte");
   ("total_amount_lte", "total_amount_lte");
   ("order_date_gte", "order_date_gte");
   ("order_date_lte", "order_date_lte");
   ("customer_name", "customer_name");
   ("product_name", "product_name");
   ("product_id", "product_id")].

(** ** Vocabulary of the specification *)

Module Spec.

Definition digits (s : string) : bool :=
  forallb Py.isdigit (list_ascii_of_string s).

(** A plus sign followed by 7 to 15 digits. *)
Definition plus_digits (s : string) : bool :=
  match s with
  | String c ds =>
      Ascii.eqb c "+" && digits ds && (7 <=? String.length ds)%nat
      && (String.length ds <=? 15)%nat
  | EmptyString => false
  end.

(** Three digits, a dash, three digits, a dash, four digits. *)
Definition dashed (s : string) : bool :=
  match list_ascii_of_string s with
  | [a; b; c; d1; e; f; g; d2; h; i; j; k] =>
      forallb Py.isdigit [a; b; c; e; f; g; h; i; j; k]
      && Ascii.eqb d1 "-" && Ascii.eqb d2 "-"
  | _ => false
  end.

(** The two phone formats of the specification. *)
Definition phone_format (s : string) : bool := plus_digits s || dashed s.

(** A phone passes validation when [_validate_phone] returns. *)
Definition phone_accepted (phone : option string) : bool :=
  match _validate_phone phone with inr _ => true | inl _ => false end.

(** The parsed product ids of an order input, before and after
    de-duplication. *)
Definition parsed_ids (input : OrderInput.t) : list Z :=
  (CreateOrder.parse_product_ids (OrderInput.product_ids input) [] []).1.

Definition distinct_ids (input : OrderInput.t) : list Z :=
  Py.fromkeys (parsed_ids input).

(** The products that the distinct ids resolve to. *)
Definition resolved (db : Store.t) (input : OrderInput.t)
  : list Product.t :=
  Store.products_in db (distinct_ids input).

(** The validation sequence (a)-(f) of order creation, each check
    contributing its own errors. *)
Definition customer_id_errors (input : OrderInput.t) : list string :=
  match Py.int (Some (OrderInput.customer_id input)) with
  | Some _ => []
  | None => ["Invalid customer ID."]
  end.

Definition product_id_errors (input : OrderInput.t) : list string :=
  (fun raw_id => "Invalid product ID: " +:+ Py.fmt raw_id) <$>
    filter (fun raw_id => Py.int raw_id = None)
      (OrderInput.product_ids input).

Definition no_product_errors (input : OrderInput.t) : list string :=
  match distinct_ids input with
  | [] => ["At least one product must be provided."]
  | _ :: _ => []
  end.

Definition customer_errors (db : Store.t) (input : OrderInput.t)
  : list string :=
  match Py.int (Some (OrderInput.customer_id input)) with
  | Some pk =>
      match Store.get_customer db pk with
      | Some _ => []
      | None => ["Customer not found."]
      end
  | None => []
  end.

(** The ids that do not resolve, in increasing order. *)
Definition missing (db : Store.t) (input : OrderInput.t) : list Z :=
  CreateOrder.missing_product_ids (distinct_ids input) (resolved db input).

Definition missing_errors (db : Store.t) (input : OrderInput.t)
  : list string :=
  match missing db input with
  | [] => []
  | ids => ["Invalid product ID(s): " +:+ Py.join ", " (Py.str <$> ids)]
  end.

Definition order_checks (db : Store.t) (input : OrderInput.t)
  : list string :=
  customer_id_errors input ++ product_id_errors input ++
  no_product_errors input ++ customer_errors db input ++
  missing_errors db input.

(** The value of a decimal counted in units of [10 ^ e]; exact when [e]
    is at most the exponent of the decimal. *)
Definition units (e : Z) (d : Decimal.t) : Z :=
  Decimal.coef d * 10 ^ (Decimal.exp d - e).

(** The sum of the values of the decimals, in units of [10 ^ e]. *)
Definition sum_units (e : Z) (ds : list Decimal.t) : Z :=
  foldr Z.add 0 (units e <$> ds).

(** [q] cents is [n] units of [10 ^ e], with [e ≤ -2], rounded half up
    to two decimals: [q] has the sign of [n], and its magnitude is the
    whole number of cents nearest to the magnitude of [n], a tie going to
    the larger one. *)
Definition half_up_cents (e n q : Z) : Prop :=
  let cent := 10 ^ (-2 - e) in
  0 ≤ q * n ∧
  2 * Z.abs q * cent - cent ≤ 2 * Z.abs n < 2 * Z.abs q * cent + cent.

(** Integrity of the tables that order creation relies on: product keys
    are unique and every link row belongs to a stored order. *)
Definition consistent (db : Store.t) : Prop :=
  NoDup (Product.id <$> Store.products db) ∧
  ∀ link, link ∈ Store.order_products db →
          link.1 ∈ Order.id <$> Store.orders db.

(** The emails queued by the rows before row [j]. *)
Definition seen_before (db : Store.t) (input : list CustomerInput.t)
    (j : nat) : gset string :=
  BulkCreateCustomers.seen_emails
    (BulkCreateCustomers.loop (BulkCreateCustomers.existing_emails db) 0
       (take j input) BulkCreateCustomers.init).

(** The errors of row [j], judged after the rows before it. *)
Definition row_verdict (db : Store.t) (input : list CustomerInput.t)
    (j : nat) (payload : CustomerInput.t) : list string :=
  BulkCreateCustomers.row_errors (BulkCreateCustomers.existing_emails db)
    (seen_before db input j) payload.

(** The error string of a row that fails, nothing otherwise: the word
    [Entry], the position of the row counted from 1, a colon, and the
    messages of the row joined by semicolons. [j] counts from 0. *)
Definition row_error (db : Store.t) (input : list CustomerInput.t)
    (j : nat) (payload : CustomerInput.t) : option string :=
  match row_verdict db input j payload with
  | [] => None
  | errs =>
      Some ("Entry " +:+ Py.str (Z.of_nat (j + 1)) +:+ ": " +:+
              Py.join "; " errs)
  end.

(** The unsaved customer of a row that passes; nothing otherwise. *)
Definition row_customer (db : Store.t) (input : list CustomerInput.t)
    (j : nat) (payload : CustomerInput.t) : option Customer.t :=
  match row_verdict db input j payload with
  | [] =>
      Some (Customer.mk None
              (BulkCreateCustomers.name_of payload)
              (BulkCreateCustomers.email_of payload)
              (BulkCreateCustomers.phone_of payload))
  | _ :: _ => None
  end.

(** [c] is the saved form of the unsaved instance [u]. *)
Definition saved_from (c u : Customer.t) : Prop :=
  is_Some (Customer.id c) ∧ Customer.name c = Customer.name u ∧
  Customer.email c = Customer.email u ∧ Customer.phone c = Customer.phone u.

(** What the loop maintains: the seen emails are those of the queued
    customers, and a queued email is non-empty and not already stored. *)
Definition loop_inv (ex : gset string) (a : BulkCreateCustomers.acc)
  : Prop :=
  (∀ e, e ∈ BulkCreateCustomers.seen_emails a ↔
        e ∈ Customer.email <$> BulkCreateCustomers.pending a) ∧
  (∀ e, e ∈ Customer.email <$> BulkCreateCustomers.pending a →
        (e ∉ ex) ∧ Py.truthy e = true).

(** The duplicate-within-request rule as the specification words it: a
    row whose email repeats the email of any earlier row of the batch,
    and is not stored yet, is reported as a duplicate within the
    request. *)
Definition flags_every_repeat (db : Store.t)
    (input : list CustomerInput.t) : Prop :=
  ∀ i j earlier payload,
    (i < j)%nat → input !! i = Some earlier → input !! j = Some payload →
    BulkCreateCustomers.email_of payload =
      BulkCreateCustomers.email_of earlier →
    BulkCreateCustomers.email_of payload ∉
      BulkCreateCustomers.existing_emails db →
    ∃ r db' errs,
      BulkCreateCustomers.mutate db input = Return (r, db') ∧
      BulkCreateCustomers.entry j errs ∈ BulkCreateCustomers.errors r ∧
      "Duplicate email within request." ∈ errs.

(** Every stored email is free of surrounding blanks. *)
Definition emails_trimmed (db : Store.t) : Prop :=
  ∀ c, c ∈ Store.customers db →
       Py.strip (Customer.email c) = Customer.email c.

(** The stores that the four mutations can build from the empty one. *)
Inductive reachable : Store.t → Prop :=
| reachable_empty : reachable Store.empty
| reachable_create_customer db input :
    reachable db → reachable (CreateCustomer.mutate db input).2
| reachable_bulk_create_customers db input r db' :
    reachable db →
    BulkCreateCustomers.mutate db input = Return (r, db') →
    reachable db'
| reachable_create_product db input r db' :
    reachable db →
    CreateProduct.mutate db input = Return (r, db') →
    reachable db'
| reachable_create_order db now input r db' :
    reachable db →
    CreateOrder.mutate db now input = Return (r, db') →
    reachable db'.

End Spec.

(** ** Sample data *)

Definition demo_customer : Customer.t :=
  Customer.mk (Some 1) "Alice" "alice@example.com" "+1234567890".

(** A store with one customer and the products 2 and 3. *)
Definition demo_store : Store.t :=
  Store.mk [demo_customer]
    [Product.mk 2 "Laptop" (Decimal.mk 99999 (-2)) 10;
     Product.mk 3 "Headphones" (Decimal.mk 19950 (-2)) 50]
    [] [].

(** An order for customer 1 with the product ids 2, 2, 3, the order it
    creates at time 0, and the store afterwards. *)
Definition demo_order_input : OrderInput.t :=
  OrderInput.mk "1" [Some "2"; Some "2"; Some "3"] None.

Definition demo_order : Order.t :=
  Order.mk 1 demo_customer (Decimal.mk 119949 (-2)) 0.

Definition demo_store_after : Store.t :=
  Store.mk (Store.customers demo_store) (Store.products demo_store)
    [demo_order] [(1, 2); (1, 3)].

(** A store whose product 2 costs 0.125 and whose product 3 costs 1.00,
    the order that the ids 2, 2, 3 create in it at time 0, and the store
    afterwards: the exact sum 1.125 lies halfway between two cents. *)
Definition half_cent_store : Store.t :=
  Store.mk [demo_customer]
    [Product.mk 2 "Stamp" (Decimal.mk 125 (-3)) 10;
     Product.mk 3 "Pen" (Decimal.mk 100 (-2)) 50]
    [] [].

Definition half_cent_order : Order.t :=
  Order.mk 1 demo_customer (Decimal.mk 113 (-2)) 0.

Definition half_cent_store_after : Store.t :=
  Store.mk (Store.customers half_cent_store)
    (Store.products half_cent_store) [half_cent_order] [(1, 2); (1, 3)].

(** An order for an unknown customer with an unknown product. *)
Definition demo_bad_order_input : OrderInput.t :=
  OrderInput.mk "9" [Some "2"; Some "7"] None.

(** A batch whose second row repeats the email of a first row that is
    refused for its blank name. *)
Definition repeat_after_rejected_row : list CustomerInput.t :=
  [CustomerInput.mk "" "a@example.com" None;
   CustomerInput.mk "Bob" " A@Example.com " None].

(** A batch of one row that passes; the row above repeats its email. *)
Definition repeat_after_queued_row : list CustomerInput.t :=
  [CustomerInput.mk "Al" "a@example.com" None].

(** A batch with one row that fails and one that passes. *)
Definition one_bad_one_good : list CustomerInput.t :=
  [CustomerInput.mk "" "bad@example.com" None;
   CustomerInput.mk "Carol" "carol@example.com" (Some "123-456-7890")].

(** A filter-set over text values that wants its two date bounds to be
    written in digits, and a filter input that breaks both. *)
Definition demo_filterset : FilterSet string (list Customer.t) :=
  mk_filterset string (list Customer.t)
    (fun data _ =>
       flat_map
         (fun field =>
            match data !! field with
            | Some value =>
                if Spec.digits value then []
                else [(field, ["Enter a valid date/time."])]
            | None => []
            end)
         ["created_at_gte"; "created_at_lte"])
    (fun _ queryset => queryset).

Definition demo_filter_input : gmap string (option string) :=
  {[ "created_at_gte" := Some "yesterday";
     "created_at_lte" := Some "tomorrow";
     "name_icontains" := None ]}.

(** ** [__str__] of the models *)

Module Str.

(** [Customer.__str__]: [f"{self.name} ({self.email})"] *)
Definition customer (c : Customer.t) : string :=
  Customer.name c +:+ " (" +:+ Customer.email c +:+ ")".

(** [Product.__str__]: [f"{self.name}"] *)
Definition product (p : Product.t) : string := Product.name p.

(** [Order.__str__]: [f"Order #{self.pk}"] *)
Definition order (o : Order.t) : string := "Order #" +:+ Py.str (Order.id o).

End Str.

(** ** Ordering and the list resolvers *)

Section Resolvers.

Variables Value Queryset : Type.

(** [queryset.order_by] called on the given fields, as the store provides
    it. *)
Variable qs_order_by : list (option string) -> Queryset -> Queryset.

(** The [order_by] argument: missing, a bare string, or a list whose
    items may be null. *)
Definition ordering : Type := option (string + list (option string)).

(** [not order_by] *)
Definition ordering_falsy (order_by : ordering) : bool :=
  match order_by with
  | None => true
  | Some (inl s) => negb (Py.truthy s)
  | Some (inr []) => true
  | Some (inr (_ :: _)) => false
  end.

Definition _apply_ordering (queryset : Queryset) (order_by : ordering)
  : Queryset :=
  if ordering_falsy order_by then queryset
  else
    match order_by with
    | Some (inl s) => qs_order_by [Some s] queryset
    | Some (inr fields) => qs_order_by fields queryset
    | None => queryset
    end.

(** The body shared by the three resolvers: filter, then order. [all] is
    the queryset the resolver starts from. *)
Definition resolve_all (all : Queryset)
    (mapping : list (string * string)) (filterset_cls : FilterSet Value Queryset)
    (filter : option (gmap string (option Value))) (order_by : ordering)
  : outcome Queryset :=
  match _filter_queryset all filter mapping filterset_cls with
  | Return queryset => Return (_apply_ordering queryset order_by)
  | Raise e => Raise e
  end.

(** [Query.resolve_all_customers] over [Customer.objects.all()] and
    [CustomerFilter]. *)
Definition resolve_all_customers (all : Queryset)
    (CustomerFilter : FilterSet Value Queryset)
    (filter : option (gmap string (option Value))) (order_by : ordering)
  : outcome Queryset :=
  resolve_all all customer_filter_mapping CustomerFilter filter order_by.

(** [Query.resolve_all_products] over [Product.objects.all()] and
    [ProductFilter]. *)
Definition resolve_all_products (all : Queryset)
    (ProductFilter : FilterSet Value Queryset)
    (filter : option (gmap string (option Value))) (order_by : ordering)
  : outcome Queryset :=
  resolve_all all product_filter_mapping ProductFilter filter order_by.

(** [Query.resolve_all_orders] over the orders with their customer and
    products fetched, and [OrderFilter]. *)
Definition resolve_all_orders (all : Queryset)
    (OrderFilter : FilterSet Value Queryset)
    (filter : option (gmap string (option Value))) (order_by : ordering)
  : outcome Queryset :=
  resolve_all all order_filter_mapping OrderFilter filter order_by.

End Resolvers.

Arguments _apply_ordering {Queryset} _ _ _.
Arguments resolve_all {Value Queryset} _ _ _ _ _ _.
Arguments resolve_all_customers {Value Queryset} _ _ _ _ _.
Arguments resolve_all_products {Value Queryset} _ _ _ _ _.
Arguments resolve_all_orders {Value Queryset} _ _ _ _ _.

(** [OrderType.resolve_products]: [root.products.all()], the stored
    products that a link row ties to the order (the link table holds a
    pair at most once). *)
Definition resolve_products (db : Store.t) (root : Order.t)
  : list Product.t :=
  filter (fun p => Product.id p ∈ Store.linked_products db (Order.id root))
    (Store.products db).

(** ** [seed_db.py] *)

Module SeedDb.

(** [CUSTOMERS]: name, email, phone. *)
Definition CUSTOMERS : list (string * string * string) :=
  [("Alice Johnson", "alice@example.com", "+1234567890");
   ("Bob Smith", "bob@example.com", "123-456-7890");
   ("Carol Danvers", "carol@example.com", "+19876543210")].

(** [PRODUCTS]: name, price, stock. *)
Definition PRODUCTS : list (string * Decimal.t * Z) :=
  [("Laptop", Decimal.mk 99999 (-2), 10);
   ("Smartphone", Decimal.mk 69900 (-2), 25);
   ("Headphones", Decimal.mk 19950 (-2), 50)].

(** What can abort the seeding transaction. *)
Inductive error : Type :=
| MultipleObjectsReturned
| InvalidOperation.

(** [Customer.objects.get_or_create(email=email, defaults={name, phone})]:
    the one row with that email, a new row when there is none, and
    [MultipleObjectsReturned] when there are several. *)
Definition get_or_create_customer (db : Store.t) (email name phone : string)
  : error + Customer.t * Store.t :=
  match filter (fun c => Customer.email c = email) (Store.customers db) with
  | [] => inr (Store.save_customer db (Customer.mk None name email phone))
  | [c] => inr (c, db)
  | _ :: _ :: _ => inl MultipleObjectsReturned
  end.

(** [Product.objects.get_or_create(name=name, defaults={price, stock})] *)
Definition get_or_create_product (db : Store.t) (name : string)
    (price : Decimal.t) (stock : Z) : error + Product.t * Store.t :=
  match filter (fun p => Product.name p = name) (Store.products db) with
  | [] => inr (Store.create_product db name price stock)
  | [p] => inr (p, db)
  | _ :: _ :: _ => inl MultipleObjectsReturned
  end.

(** [Order.objects.create(customer=..., total_amount=...)], the order date
    being the clock's. *)
Definition insert_order (db : Store.t) (customer : Customer.t)
    (total_amount : Decimal.t) (now : Z) : Order.t * Store.t :=
  let o := Order.mk (Store.next_pk (Order.id <$> Store.orders db))
             customer total_amount now in
  (o, Store.mk (Store.customers db) (Store.products db)
        (Store.orders db ++ [o]) (Store.order_products db)).

(** [Order.objects.get_or_create(customer=customer, defaults={total_amount})]:
    the lookup goes by the customer's key. *)
Definition get_or_create_order (db : Store.t) (customer : Customer.t)
    (total_amount : Decimal.t) (now : Z) : error + Order.t * Store.t :=
  match filter (fun o => Customer.id (Order.customer o) = Customer.id customer)
          (Store.orders db) with
  | [] => inr (insert_order db customer total_amount now)
  | [o] => inr (o, db)
  | _ :: _ :: _ => inl MultipleObjectsReturned
  end.

(** [order.products.set(ps)]: the link rows of the order to products
    outside [ps] are deleted, and one row is added for every product of
    [ps] that the order is not linked to yet. *)
Definition set_products (db : Store.t) (order_id : Z) (ps : list Product.t)
  : Store.t :=
  let new_ids := Product.id <$> ps in
  let old_ids := Store.linked_products db order_id in
  let kept :=
    filter (fun l => ¬ (l.1 = order_id ∧ l.2 ∉ new_ids))
      (Store.order_products db) in
  let added :=
    (fun i => (order_id, i)) <$>
      filter (fun i => i ∉ old_ids) (Py.fromkeys new_ids) in
  Store.mk (Store.customers db) (Store.products db) (Store.orders db)
    (kept ++ added).

(** The first loop of [seed], from the payloads still to do. *)
Fixpoint seed_customers (payloads : list (string * string * string))
    (db : Store.t) (customer_objs : list Customer.t)
  : error + list Customer.t * Store.t :=
  match payloads with
  | [] => inr (customer_objs, db)
  | (name, email, phone) :: rest =>
      match get_or_create_customer db (Py.lower email) name phone with
      | inl e => inl e
      | inr (customer, db) =>
          seed_customers rest db (customer_objs ++ [customer])
      end
  end.

(** The second loop of [seed]. *)
Fixpoint seed_products (payloads : list (string * Decimal.t * Z))
    (db : Store.t) (product_objs : list Product.t)
  : error + list Product.t * Store.t :=
  match payloads with
  | [] => inr (product_objs, db)
  | (name, price, stock) :: rest =>
      match get_or_create_product db name price stock with
      | inl e => inl e
      | inr (product, db) =>
          seed_products rest db (product_objs ++ [product])
      end
  end.

(** The last step of [seed], given the objects of the two loops. The
    default total is computed before the lookup. *)
Definition seed_order (db : Store.t) (now : Z)
    (customer_objs : list Customer.t) (product_objs : list Product.t)
  : error + Store.t :=
  match customer_objs, product_objs with
  | customer :: _, _ :: _ =>
      match Decimal.quantize_cents
              (Decimal.sum (Product.price <$> take 2 product_objs)) with
      | None => inl InvalidOperation
      | Some total_amount =>
          match get_or_create_order db customer total_amount now with
          | inl e => inl e
          | inr (order, db) =>
              inr (set_products db (Order.id order) (take 2 product_objs))
          end
      end
  | _, _ => inr db
  end.

(** [seed()] over given payload lists: everything happens in one
    transaction, so an error leaves the store as it was and only the
    error comes back. [now] is the clock read by the [order_date]
    default. *)
Definition seed_with (customers : list (string * string * string))
    (products : list (string * Decimal.t * Z)) (db : Store.t) (now : Z)
  : error + Store.t :=
  match seed_customers customers db [] with
  | inl e => inl e
  | inr (customer_objs, db) =>
      match seed_products products db [] with
      | inl e => inl e
      | inr (product_objs, db) => seed_order db now customer_objs product_objs
      end
  end.

Definition seed (db : Store.t) (now : Z) : error + Store.t :=
  seed_with CUSTOMERS PRODUCTS db now.

End SeedDb.

(** ** Invariants of the tables *)

Module Inv.

(** No two stored emails are equal up to letter case. *)
Definition emails_unique (db : Store.t) : Prop :=
  NoDup (Py.lower <$> (Customer.email <$> Store.customers db)).

(** Every stored phone is empty or in one of the two formats. *)
Definition phones_well_formed (db : Store.t) : Prop :=
  ∀ c, c ∈ Store.customers db →
       Customer.phone c = "" ∨ Spec.phone_format (Customer.phone c) = true.

(** Every stored customer has a key, and no key is used twice in its
    table. *)
Definition keys_unique (db : Store.t) : Prop :=
  Forall (fun c => is_Some (Customer.id c)) (Store.customers db) ∧
  NoDup (Store.customer_ids db) ∧
  NoDup (Product.id <$> Store.products db) ∧
  NoDup (Order.id <$> Store.orders db).

(** Every order belongs to a stored customer, every link row ties a
    stored order to a stored product, and no link row is repeated. *)
Definition references_hold (db : Store.t) : Prop :=
  (∀ o, o ∈ Store.orders db → Order.customer o ∈ Store.customers db) ∧
  (∀ l, l ∈ Store.order_products db →
        l.1 ∈ Order.id <$> Store.orders db ∧
        l.2 ∈ Product.id <$> Store.products db) ∧
  NoDup (Store.order_products db).

(** Every stored product has a price of two decimals that is not
    negative, and a stock that is not negative. *)
Definition products_well_formed (db : Store.t) : Prop :=
  ∀ p, p ∈ Store.products db →
       Decimal.exp (Product.price p) = -2 ∧
       0 ≤ Decimal.coef (Product.price p) ∧ 0 ≤ Product.stock p.

(** The total of every stored order is the quantized sum of the prices
    of the products that the order resolves to. *)
Definition totals_hold (db : Store.t) : Prop :=
  ∀ o, o ∈ Store.orders db →
       Decimal.quantize_cents
         (Decimal.sum (Product.price <$> resolve_products db o))
       = Some (Order.total_amount o).

(** The total of every stored order has two decimals and is the exact
    sum, in cents, of the prices of the products that the order resolves
    to. *)
Definition totals_exact (db : Store.t) : Prop :=
  ∀ o, o ∈ Store.orders db →
       Decimal.exp (Order.total_amount o) = -2 ∧
       Decimal.coef (Order.total_amount o) =
         Spec.sum_units (-2) (Product.price <$> resolve_products db o).

(** The invariant that the mutations keep. *)
Definition holds (db : Store.t) : Prop :=
  emails_unique db ∧ phones_well_formed db ∧ keys_unique db ∧
  references_hold db ∧ products_well_formed db ∧ totals_hold db.

End Inv.

(** ** More sample data *)

(** A store as the mutations build it: a customer, two products, and an
    order of both made at time 0. *)
Definition session_store : Store.t :=
  Store.mk [demo_customer]
    [Product.mk 1 "Laptop" (Decimal.mk 99999 (-2)) 10;
     Product.mk 2 "Headphones" (Decimal.mk 19950 (-2)) 50]
    [demo_order] [(1, 1); (1, 2)].

(** The store above after seeding: the customer, the two products and the
    order are found, the rest is added, and the links of the order are
    reset. *)
Definition session_store_seeded : Store.t :=
  Store.mk
    [demo_customer;
     Customer.mk (Some 2) "Bob Smith" "bob@example.com" "123-456-7890";
     Customer.mk (Some 3) "Carol Danvers" "carol@example.com" "+19876543210"]
    [Product.mk 1 "Laptop" (Decimal.mk 99999 (-2)) 10;
     Product.mk 2 "Headphones" (Decimal.mk 19950 (-2)) 50;
     Product.mk 3 "Smartphone" (Decimal.mk 69900 (-2)) 25]
    [demo_order] [(1, 1); (1, 3)].

(** The empty store after seeding at time 7. *)
Definition seeded_store : Store.t :=
  let alice :=
    Customer.mk (Some 1) "Alice Johnson" "alice@example.com" "+1234567890" in
  Store.mk
    [alice;
     Customer.mk (Some 2) "Bob Smith" "bob@example.com" "123-456-7890";
     Customer.mk (Some 3) "Carol Danvers" "carol@example.com" "+19876543210"]
    [Product.mk 1 "Laptop" (Decimal.mk 99999 (-2)) 10;
     Product.mk 2 "Smartphone" (Decimal.mk 69900 (-2)) 25;
     Product.mk 3 "Headphones" (Decimal.mk 19950 (-2)) 50]
    [Order.mk 1 alice (Decimal.mk 169899 (-2)) 7] [(1, 1); (1, 2)].

(** A store with two products of one name. *)
Definition two_laptops : Store.t :=
  Store.mk []
    [Product.mk 1 "Laptop" (Decimal.mk 99999 (-2)) 10;
     Product.mk 2 "Laptop" (Decimal.mk 89999 (-2)) 3]
    [] [].

(** A customer whose email is a seed email in other letter case, and
    the store that holds only this customer, before and after seeding at
    time 7. *)
Definition case_variant_customer : Customer.t :=
  Customer.mk (Some 1) "Alice" "Alice@Example.com" "".

Definition case_variant_store : Store.t :=
  Store.mk [case_variant_customer] [] [] [].

Definition case_variant_seeded : Store.t :=
  let alice :=
    Customer.mk (Some 2) "Alice Johnson" "alice@example.com" "+1234567890" in
  Store.mk
    [case_variant_customer; alice;
     Customer.mk (Some 3) "Bob Smith" "bob@example.com" "123-456-7890";
     Customer.mk (Some 4) "Carol Danvers" "carol@example.com" "+19876543210"]
    [Product.mk 1 "Laptop" (Decimal.mk 99999 (-2)) 10;
     Product.mk 2 "Smartphone" (Decimal.mk 69900 (-2)) 25;
     Product.mk 3 "Headphones" (Decimal.mk 19950 (-2)) 50]
    [Order.mk 1 alice (Decimal.mk 169899 (-2)) 7] [(1, 1); (1, 2)].

(** A product priced 1.005, and the product that creation stores for it
    in the empty store. *)
Definition pen_input : ProductInput.t :=
  ProductInput.mk " Pen " (Decimal.mk 1005 (-3)) None.

Definition pen : Product.t := Product.mk 1 "Pen" (Decimal.mk 101 (-2)) 0.

(** A customer input that passes every check, and the customer that it
    saves in the empty store. *)
Definition carol_input : CustomerInput.t :=
  CustomerInput.mk "Carol" "carol@example.com" (Some "123-456-7890").

Definition carol : Customer.t :=
  Customer.mk (Some 1) "Carol" "carol@example.com" "123-456-7890".

(** ** Facts about the built-ins *)

Lemma lower_char_idem c : Py.lower_char (Py.lower_char c) = Py.lower_char c.
Proof.
  destruct c as [[] [] [] [] [] [] [] []]; reflexivity.
Qed.

Lemma lower_idem s : Py.lower (Py.lower s) = Py.lower s.
Proof.
  induction s as [|c s IH]; simpl; [reflexivity|].
  by rewrite lower_char_idem, IH.
Qed.

Lemma isspace_lower_char c : Py.isspace (Py.lower_char c) = Py.isspace c.
Proof.
  destruct c as [[] [] [] [] [] [] [] []]; reflexivity.
Qed.

Lemma lstrip_lower s : Py.lstrip (Py.lower s) = Py.lower (Py.lstrip s).
Proof.
  unfold Py.lstrip. induction s as [|c s IH]; simpl; [reflexivity|].
  rewrite isspace_lower_char. destruct (Py.isspace c); [exact IH|reflexivity].
Qed.

Lemma rstrip_lower s : Py.rstrip (Py.lower s) = Py.lower (Py.rstrip s).
Proof.
  unfold Py.rstrip. induction s as [|c s IH]; simpl; [reflexivity|].
  rewrite IH, isspace_lower_char.
  destruct (Py.rtrim Py.isspace s); simpl; [destruct (Py.isspace c)|];
    reflexivity.
Qed.

Lemma strip_lower s : Py.strip (Py.lower s) = Py.lower (Py.strip s).
Proof. unfold Py.strip. by rewrite lstrip_lower, rstrip_lower. Qed.

(** ** Order creation *)

Lemma parse_product_ids_acc raw_ids product_ids errors :
  CreateOrder.parse_product_ids raw_ids product_ids errors =
  (product_ids ++ omap Py.int raw_ids,
   errors ++ ((fun raw_id => "Invalid product ID: " +:+ Py.fmt raw_id) <$>
                filter (fun raw_id => Py.int raw_id = None) raw_ids)).
Proof.
  revert product_ids errors.
  induction raw_ids as [|raw rest IH]; intros product_ids errors; simpl.
  - by rewrite !app_nil_r.
  - destruct (Py.int raw) as [n|] eqn:Hraw.
    + rewrite IH, filter_cons_False by congruence.
      by rewrite <- app_assoc.
    + rewrite IH, filter_cons_True by done.
      by rewrite fmap_cons, <- app_assoc.
Qed.

Lemma parsed_ids_omap input :
  Spec.parsed_ids input = omap Py.int (OrderInput.product_ids input).
Proof. unfold Spec.parsed_ids. by rewrite parse_product_ids_acc. Qed.

Lemma products_in_nil db : Store.products_in db [] = [].
Proof.
  unfold Store.products_in.
  induction (Store.products db) as [|p ps IH]; [done|].
  rewrite filter_cons_False; [done|]. apply not_elem_of_nil.
Qed.

Lemma create_order_unfold db now input :
  CreateOrder.mutate db now input =
  match Spec.order_checks db input with
  | _ :: _ => Return (CreateOrder.mk None (Spec.order_checks db input), db)
  | [] =>
      match Decimal.quantize_cents
              (Decimal.sum (Product.price <$> Spec.resolved db input)) with
      | None => Raise InvalidOperation
      | Some total_amount =>
          match Py.int (Some (OrderInput.customer_id input))
                  ≫= Store.get_customer db with
          | None => Raise IntegrityError
          | Some c =>
              let '(order, db) :=
                Store.create_order db c total_amount
                  (default now (OrderInput.order_date input))
                  (Spec.resolved db input) in
              Return (CreateOrder.mk (Some order) [], db)
          end
      end
  end.
Proof.
  unfold CreateOrder.mutate, Spec.order_checks, Spec.customer_id_errors,
    Spec.product_id_errors, Spec.no_product_errors, Spec.customer_errors,
    Spec.missing_errors, Spec.missing, Spec.resolved, Spec.distinct_ids.
  rewrite parsed_ids_omap.
  destruct (Py.int (Some (OrderInput.customer_id input))) as [pk|];
    cbv beta iota; rewrite parse_product_ids_acc; cbv beta iota;
    rewrite !app_nil_l.
  all: replace
         (match Py.fromkeys (omap Py.int (OrderInput.product_ids input)) with
          | [] => []
          | _ :: _ =>
              Store.products_in db
                (Py.fromkeys (omap Py.int (OrderInput.product_ids input)))
          end)
    with (Store.products_in db
            (Py.fromkeys (omap Py.int (OrderInput.product_ids input))))
    by (destruct (Py.fromkeys _); [by rewrite products_in_nil | done]).
  all: generalize (Py.fromkeys (omap Py.int (OrderInput.product_ids input)));
    intros pids;
    generalize ((fun raw_id => "Invalid product ID: " +:+ Py.fmt raw_id) <$>
                filter (fun raw_id => Py.int raw_id = None)
                  (OrderInput.product_ids input));
    intros perrs;
    generalize
      (CreateOrder.missing_product_ids pids (Store.products_in db pids));
    intros miss;
    generalize (Decimal.quantize_cents
                (Decimal.sum (Product.price <$> Store.products_in db pids)));
    intros total.
  all: simpl; try destruct (Store.get_customer db pk) as [c|];
    destruct pids as [|i pids], miss as [|m miss]; simpl;
    rewrite <- ?app_assoc, ?app_nil_r; reflexivity.
Qed.

Lemma elem_of_fromkeys_acc seen xs x :
  x ∈ Py.fromkeys_acc seen xs ↔ x ∈ xs ∧ x ∉ seen.
Proof.
  revert seen. induction xs as [|y xs IH]; intros seen; simpl.
  - set_solver.
  - case_bool_decide as Hy.
    + rewrite IH. set_solver.
    + rewrite elem_of_cons, IH. 
      destruct (decide (x = y)) as [->|Hne]; set_solver.
Qed.

Lemma NoDup_fromkeys_acc seen xs : NoDup (Py.fromkeys_acc seen xs).
Proof.
  revert seen. induction xs as [|y xs IH]; intros seen; simpl.
  - constructor.
  - case_bool_decide as Hy; [apply IH|].
    constructor; [|apply IH].
    rewrite elem_of_fromkeys_acc. set_solver.
Qed.

Lemma elem_of_fromkeys xs x : x ∈ Py.fromkeys xs ↔ x ∈ xs.
Proof. unfold Py.fromkeys. rewrite elem_of_fromkeys_acc. set_solver. Qed.

Lemma NoDup_fromkeys xs : NoDup (Py.fromkeys xs).
Proof. apply NoDup_fromkeys_acc. Qed.

Lemma elem_of_sorted xs x : x ∈ Py.sorted xs ↔ x ∈ xs.
Proof. unfold Py.sorted. by rewrite merge_sort_Permutation. Qed.

Lemma elem_of_missing_product_ids product_ids products x :
  x ∈ CreateOrder.missing_product_ids product_ids products ↔
  x ∈ product_ids ∧ x ∉ Product.id <$> products.
Proof.
  unfold CreateOrder.missing_product_ids.
  rewrite elem_of_sorted, elem_of_elements, elem_of_difference,
    !elem_of_list_to_set. done.
Qed.

Lemma elem_of_products_in db ids p :
  p ∈ Store.products_in db ids ↔ p ∈ Store.products db ∧ Product.id p ∈ ids.
Proof. unfold Store.products_in. rewrite list_elem_of_filter. tauto. Qed.

Lemma elem_of_missing db input x :
  x ∈ Spec.missing db input ↔
  x ∈ Spec.parsed_ids input ∧ x ∉ Product.id <$> Store.products db.
Proof.
  unfold Spec.missing, Spec.resolved, Spec.distinct_ids.
  rewrite elem_of_missing_product_ids, elem_of_fromkeys.
  split.
  - intros [Hx Hn]. split; [done|]. intros Hin. apply Hn.
    apply list_elem_of_fmap in Hin as (p & -> & Hp).
    apply list_elem_of_fmap. exists p. split; [done|].
    apply elem_of_products_in. split; [done|]. by apply elem_of_fromkeys.
  - intros [Hx Hn]. split; [done|]. intros Hin. apply Hn.
    apply list_elem_of_fmap in Hin as (p & -> & Hp).
    apply list_elem_of_fmap. exists p. split; [done|].
    by apply elem_of_products_in in Hp as [? _].
Qed.

(** Claim C1. Every check of order creation contributes its errors
    whatever the other checks found: the error list is the concatenation
    of the customer-id, product-id, at-least-one-product, customer-lookup
    and missing-product errors. When that list is not empty the mutation
    returns no order, that list, and the store it was given. In
    particular, a customer id that parses but is not stored, together with
    a product id that parses but is not stored, yields both
    "Customer not found." and the missing-product error in one answer. *)
Theorem create_order_reports_all_errors db now input :
  let errs := Spec.order_checks db input in
  (errs ≠ [] →
   CreateOrder.mutate db now input = Return (CreateOrder.mk None errs, db)) ∧
  (∀ pk raw_id p,
     Py.int (Some (OrderInput.customer_id input)) = Some pk →
     Store.get_customer db pk = None →
     raw_id ∈ OrderInput.product_ids input →
     Py.int raw_id = Some p →
     p ∉ Product.id <$> Store.products db →
     CreateOrder.mutate db now input = Return (CreateOrder.mk None errs, db) ∧
     "Customer not found." ∈ errs ∧
     p ∈ Spec.missing db input ∧
     "Invalid product ID(s): " +:+
       Py.join ", " (Py.str <$> Spec.missing db input) ∈ errs).
Proof.
  intros errs.
  assert (Hret : errs ≠ [] →
    CreateOrder.mutate db now input = Return (CreateOrder.mk None errs, db)).
  { intros Hne. rewrite create_order_unfold. fold errs.
    destruct errs; [done | reflexivity]. }
  split; [exact Hret|].
  intros pk raw_id p Hpk Hget Hraw Hp Hmiss.
  assert (Hin : p ∈ Spec.missing db input).
  { apply elem_of_missing. split; [|done].
    rewrite parsed_ids_omap. apply list_elem_of_omap. eauto. }
  assert (Hcust : "Customer not found." ∈ errs).
  { unfold errs, Spec.order_checks, Spec.customer_errors.
    rewrite Hpk, Hget. set_solver. }
  assert (Hmsg : "Invalid product ID(s): " +:+
       Py.join ", " (Py.str <$> Spec.missing db input) ∈ errs).
  { unfold errs, Spec.order_checks, Spec.missing_errors.
    destruct (Spec.missing db input) as [|m ms] eqn:E.
    - by apply elem_of_nil in Hin.
    - set_solver. }
  split_and!; try done.
  apply Hret. intros E. rewrite E in Hcust. by apply elem_of_nil in Hcust.
Qed.

Lemma list_nil_of_no_elem {A} (l : list A) : (∀ x, x ∉ l) → l = [].
Proof. destruct l as [|a l]; [done|]. intros H. destruct (H a). by left. Qed.

Lemma fromkeys_acc_ext s1 s2 xs :
  (∀ x, x ∈ s1 ↔ x ∈ s2) → Py.fromkeys_acc s1 xs = Py.fromkeys_acc s2 xs.
Proof.
  revert s1 s2. induction xs as [|y xs IH]; intros s1 s2 Hs; simpl; [done|].
  rewrite (bool_decide_ext (y ∈ s1) (y ∈ s2)) by apply Hs.
  case_bool_decide; [by apply IH|].
  f_equal. apply IH. intros x. rewrite !elem_of_cons, Hs. done.
Qed.

Lemma fromkeys_acc_app seen xs ys :
  Py.fromkeys_acc seen (xs ++ ys) =
  Py.fromkeys_acc seen xs ++ Py.fromkeys_acc (xs ++ seen) ys.
Proof.
  revert seen. induction xs as [|y xs IH]; intros seen; simpl; [done|].
  case_bool_decide as Hy.
  - rewrite IH. f_equal. apply fromkeys_acc_ext. set_solver.
  - rewrite IH. simpl. do 2 f_equal. apply fromkeys_acc_ext. set_solver.
Qed.

Lemma fromkeys_prefix xs n : Py.fromkeys (take n xs) `prefix_of` Py.fromkeys xs.
Proof.
  unfold Py.fromkeys. rewrite <- (take_drop n xs) at 2.
  rewrite fromkeys_acc_app. by eexists.
Qed.

Lemma next_pk_fresh ids x : x ∈ ids → x < Store.next_pk ids.
Proof.
  unfold Store.next_pk. induction ids as [|y ids IH]; simpl.
  - by intros ?%elem_of_nil.
  - intros [->|Hx]%elem_of_cons; [lia|]. specialize (IH Hx). lia.
Qed.

Lemma NoDup_fmap_filter {A B} (f : A → B) (P : A → Prop)
    `{∀ x, Decision (P x)} (l : list A) :
  NoDup (f <$> l) → NoDup (f <$> filter P l).
Proof.
  induction l as [|a l IH]; [done|].
  rewrite fmap_cons. intros [Hn Hd]%NoDup_cons.
  destruct (decide (P a)).
  - rewrite filter_cons_True by done. rewrite fmap_cons. apply NoDup_cons.
    split; [|by apply IH]. intros Hin. apply Hn.
    apply list_elem_of_fmap in Hin as (b & -> & Hb).
    apply list_elem_of_fmap. exists b. split; [done|].
    by apply list_elem_of_filter in Hb as [_ ?].
  - rewrite filter_cons_False by done. by apply IH.
Qed.

Lemma new_links_of_order (k : Z) (ps : list Product.t) :
  (filter (fun l : Z * Z => l.1 = k) ((fun p => (k, Product.id p)) <$> ps)).*2
  = Product.id <$> ps.
Proof.
  induction ps as [|p ps IH]; [done|].
  rewrite !fmap_cons, filter_cons_True by done.
  rewrite fmap_cons, IH. done.
Qed.

(** Claim C10. When no product id of the input parses, the answer has no
    order, leaves the store alone, and lists one "Invalid product ID: <id>"
    per id, in order, followed by "At least one product must be provided.";
    only the customer checks can add errors before and after. *)
Theorem create_order_only_unparseable_ids db now input :
  Forall (fun raw_id => Py.int raw_id = None) (OrderInput.product_ids input) →
  CreateOrder.mutate db now input =
  Return
    (CreateOrder.mk None
       (Spec.customer_id_errors input ++
        ((fun raw_id => "Invalid product ID: " +:+ Py.fmt raw_id) <$>
           OrderInput.product_ids input) ++
        ["At least one product must be provided."] ++
        Spec.customer_errors db input),
     db).
Proof.
  intros Hall. rewrite create_order_unfold.
  assert (Hparsed : Spec.parsed_ids input = []).
  { rewrite parsed_ids_omap.
    induction Hall as [|raw rest Hraw _ IH]; [done|].
    simpl. by rewrite Hraw. }
  assert (Hmiss : Spec.missing db input = []).
  { apply list_nil_of_no_elem. intros x [Hx _]%elem_of_missing.
    rewrite Hparsed in Hx. by apply elem_of_nil in Hx. }
  assert (Hfilter :
    filter (fun raw_id => Py.int raw_id = None) (OrderInput.product_ids input)
    = OrderInput.product_ids input).
  { induction Hall as [|raw rest Hraw _ IH]; [done|].
    rewrite filter_cons_True by done. by rewrite IH. }
  unfold Spec.order_checks, Spec.product_id_errors, Spec.no_product_errors,
    Spec.missing_errors, Spec.distinct_ids.
  rewrite Hparsed, Hmiss, Hfilter. simpl. rewrite app_nil_r.
  destruct (Spec.customer_id_errors input ++ _) eqn:E; [|done].
  apply app_nil in E as [_ E]. apply app_nil in E as [_ E]. done.
Qed.

Lemma quantize_cents_exp d q :
  Decimal.quantize_cents d = Some q → Decimal.exp q = -2.
Proof.
  unfold Decimal.quantize_cents. destruct (_ <=? Z.abs _); [done|].
  by intros [= <-].
Qed.

Lemma div_half_up_spec n k :
  0 < k →
  0 ≤ Decimal.div_half_up n k * n ∧
  2 * Z.abs (Decimal.div_half_up n k) * 10 ^ k - 10 ^ k ≤ 2 * Z.abs n
    < 2 * Z.abs (Decimal.div_half_up n k) * 10 ^ k + 10 ^ k.
Proof.
  intros Hk. unfold Decimal.div_half_up.
  assert (Hp : 0 < 10 ^ k) by (apply Z.pow_pos_nonneg; lia).
  set (p := 10 ^ k) in *.
  pose proof (Z.div_mod (Z.abs n) p ltac:(lia)) as Hdm.
  pose proof (Z.mod_pos_bound (Z.abs n) p Hp) as Hr.
  assert (Hq : 0 ≤ Z.abs n / p) by (apply Z.div_pos; lia).
  set (q := Z.abs n / p) in *. set (r := Z.abs n mod p) in *.
  destruct (Z.leb_spec p (2 * r));
    destruct (Z.sgn_spec n) as [[? ->]|[[? ->]|[? ->]]]; nia.
Qed.

Lemma units_add e a b :
  e ≤ Decimal.exp a → e ≤ Decimal.exp b →
  e ≤ Decimal.exp (Decimal.add a b) ∧
  Spec.units e (Decimal.add a b) = Spec.units e a + Spec.units e b.
Proof.
  intros Ha Hb. unfold Spec.units, Decimal.add, Decimal.scale_to. simpl.
  split; [lia|].
  set (m := Z.min (Decimal.exp a) (Decimal.exp b)).
  rewrite Z.mul_add_distr_r, <- !Z.mul_assoc, <- !Z.pow_add_r by lia.
  f_equal; f_equal; f_equal; lia.
Qed.

Lemma sum_units_cons e d ds :
  Spec.sum_units e (d :: ds) = Spec.units e d + Spec.sum_units e ds.
Proof. reflexivity. Qed.

Lemma units_fold_add e ds acc :
  e ≤ Decimal.exp acc →
  Forall (fun d => e ≤ Decimal.exp d) ds →
  e ≤ Decimal.exp (fold_left Decimal.add ds acc) ∧
  Spec.units e (fold_left Decimal.add ds acc) =
    Spec.units e acc + Spec.sum_units e ds.
Proof.
  intros Hacc Hds. revert acc Hacc.
  induction Hds as [|d ds Hd _ IH]; intros acc Hacc; simpl.
  - split; [done|]. change (Spec.sum_units e []) with 0. lia.
  - destruct (units_add e acc d Hacc Hd) as [He Hu].
    destruct (IH _ He) as [He' Hu']. split; [done|].
    rewrite Hu', Hu, sum_units_cons. lia.
Qed.

Lemma quantize_cents_half_up e d q :
  e ≤ -2 → e ≤ Decimal.exp d →
  Decimal.quantize_cents d = Some q →
  Decimal.exp q = -2 ∧
  Spec.half_up_cents e (Spec.units e d) (Decimal.coef q).
Proof.
  intros He Hd. unfold Decimal.quantize_cents.
  destruct (10 ^ Decimal.prec <=? _); [done|]. intros [= <-]. simpl.
  split; [done|]. unfold Spec.half_up_cents, Spec.units. cbv zeta.
  assert (Hc : 0 < 10 ^ (-2 - e)) by (apply Z.pow_pos_nonneg; lia).
  destruct (Z.leb_spec (-2) (Decimal.exp d)).
  - replace (Decimal.exp d - e) with ((Decimal.exp d + 2) + (-2 - e)) by lia.
    rewrite (Z.pow_add_r 10 (Decimal.exp d + 2) (-2 - e)) by lia.
    assert (0 < 10 ^ (Decimal.exp d + 2)) by (apply Z.pow_pos_nonneg; lia).
    set (c := Decimal.coef d * 10 ^ (Decimal.exp d + 2)).
    replace (Decimal.coef d * (10 ^ (Decimal.exp d + 2) * 10 ^ (-2 - e)))
      with (c * 10 ^ (-2 - e)) by (unfold c; ring).
    rewrite Z.abs_mul, (Z.abs_eq (10 ^ _)) by lia. nia.
  - destruct (div_half_up_spec (Decimal.coef d) (-2 - Decimal.exp d))
      as (Hs & Hlo & Hhi); [lia|].
    set (c := Decimal.div_half_up _ _) in *.
    replace (-2 - e) with ((-2 - Decimal.exp d) + (Decimal.exp d - e)) by lia.
    rewrite (Z.pow_add_r 10 (-2 - Decimal.exp d) (Decimal.exp d - e)) by lia.
    assert (0 < 10 ^ (Decimal.exp d - e)) by (apply Z.pow_pos_nonneg; lia).
    assert (0 < 10 ^ (-2 - Decimal.exp d)) by (apply Z.pow_pos_nonneg; lia).
    rewrite Z.abs_mul, (Z.abs_eq (10 ^ (Decimal.exp d - e))) by lia.
    set (s := 10 ^ (Decimal.exp d - e)) in *.
    set (p := 10 ^ (-2 - Decimal.exp d)) in *.
    split; [nia|]. split; nia.
Qed.

Lemma sum_half_up e ds q :
  e ≤ -2 → Forall (fun d => e ≤ Decimal.exp d) ds →
  Decimal.quantize_cents (Decimal.sum ds) = Some q →
  Decimal.exp q = -2 ∧
  Spec.half_up_cents e (Spec.sum_units e ds) (Decimal.coef q).
Proof.
  intros He Hds Hq.
  destruct (units_fold_add e ds Decimal.zero) as [Hexp Hu];
    [simpl; lia|done|].
  fold (Decimal.sum ds) in Hexp, Hu.
  destruct (quantize_cents_half_up e _ q He Hexp Hq) as [? Hh].
  split; [done|]. rewrite Hu in Hh. unfold Spec.units in Hh at 1.
  simpl in Hh. by rewrite Z.mul_0_l, Z.add_0_l in Hh.
Qed.

(** Claim C2. On a consistent store, a successful order creation works on
    the parsed ids with repeats dropped and first appearances kept in
    order; the new order is linked to exactly those ids, each once; and
    its total has two decimals and is the exact sum of the resolved
    products' prices rounded half up to cents: counted in any unit
    [10 ^ e] fine enough for every price, the total is the whole number
    of cents nearest to the sum, a tie going away from zero. It is what
    quantizing the sum gives. *)
Theorem create_order_links_distinct_products db now input o errs db' :
  Spec.consistent db →
  CreateOrder.mutate db now input = Return (CreateOrder.mk (Some o) errs, db') →
  let ids := Spec.distinct_ids input in
  NoDup ids ∧
  (∀ x, x ∈ ids ↔ x ∈ Spec.parsed_ids input) ∧
  (∀ n, Py.fromkeys (take n (Spec.parsed_ids input)) `prefix_of` ids) ∧
  Store.linked_products db' (Order.id o) ≡ₚ ids ∧
  Product.id <$> Spec.resolved db input ≡ₚ ids ∧
  Decimal.quantize_cents
    (Decimal.sum (Product.price <$> Spec.resolved db input))
  = Some (Order.total_amount o) ∧
  Decimal.exp (Order.total_amount o) = -2 ∧
  ∀ e, e ≤ -2 →
       Forall (fun p => e ≤ Decimal.exp (Product.price p))
         (Spec.resolved db input) →
       Spec.half_up_cents e
         (Spec.sum_units e (Product.price <$> Spec.resolved db input))
         (Decimal.coef (Order.total_amount o)).
Proof.
  intros [Hnodup Hlinks] Hmut ids.
  rewrite create_order_unfold in Hmut.
  destruct (Spec.order_checks db input) as [|e es] eqn:Hchecks; [|done].
  destruct (Decimal.quantize_cents _) as [total|] eqn:Htotal; [|done].
  destruct (_ ≫= _) as [c|]; [|done].
  simpl in Hmut. injection Hmut as <- <- <-. simpl.
  assert (Hmiss : Spec.missing db input = []).
  { unfold Spec.order_checks in Hchecks.
    repeat apply app_nil in Hchecks as [_ Hchecks].
    unfold Spec.missing_errors in Hchecks.
    by destruct (Spec.missing db input). }
  assert (Hperm : Product.id <$> Spec.resolved db input ≡ₚ ids).
  { apply NoDup_Permutation.
    - by apply NoDup_fmap_filter.
    - apply NoDup_fromkeys.
    - intros x. split.
      + intros (p & -> & Hp)%list_elem_of_fmap.
        by apply elem_of_products_in in Hp as [_ ?].
      + intros Hx. destruct (decide (x ∈ Product.id <$> Store.products db))
          as [Hin|Hout].
        * apply list_elem_of_fmap in Hin as (p & -> & Hp).
          apply list_elem_of_fmap. exists p. split; [done|].
          by apply elem_of_products_in.
        * assert (Hm : x ∈ Spec.missing db input).
          { apply elem_of_missing. split; [|done]. by apply elem_of_fromkeys. }
          rewrite Hmiss in Hm. by apply elem_of_nil in Hm. }
  split_and!; try done.
  - apply NoDup_fromkeys.
  - intros x. apply elem_of_fromkeys.
  - intros n. apply fromkeys_prefix.
  - rewrite <- Hperm. unfold Store.linked_products. simpl.
    rewrite filter_app.
    replace (filter _ (Store.order_products db)) with (@nil (Z * Z)).
    + simpl. by rewrite new_links_of_order.
    + symmetry. apply list_nil_of_no_elem.
      intros link [Heq Hl]%list_elem_of_filter.
      apply Hlinks, next_pk_fresh in Hl. lia.
  - by eapply quantize_cents_exp.
  - intros e He Hfine. eapply sum_half_up; [done| |exact Htotal].
    by apply Forall_fmap.
Qed.


Example create_order_2_2_3 :
  CreateOrder.mutate demo_store 0 demo_order_input =
  Return (CreateOrder.mk (Some demo_order) [], demo_store_after).
Proof. vm_compute. reflexivity. Qed.

Lemma half_cent_store_consistent : Spec.consistent half_cent_store.
Proof.
  split.
  - vm_compute. repeat constructor; set_solver.
  - intros link Hl. by apply elem_of_nil in Hl.
Qed.

Lemma create_order_links_distinct_products_witness :
  CreateOrder.mutate half_cent_store 0 demo_order_input =
    Return (CreateOrder.mk (Some half_cent_order) [], half_cent_store_after) ∧
  Store.linked_products half_cent_store_after 1 ≡ₚ [2; 3] ∧
  Order.total_amount half_cent_order = Decimal.mk 113 (-2) ∧
  Spec.half_up_cents (-3) 1125 113.
Proof.
  assert (Hmut : CreateOrder.mutate half_cent_store 0 demo_order_input =
                 Return (CreateOrder.mk (Some half_cent_order) [],
                         half_cent_store_after))
    by (vm_compute; reflexivity).
  destruct (create_order_links_distinct_products half_cent_store 0
              demo_order_input half_cent_order [] half_cent_store_after
              half_cent_store_consistent Hmut)
    as (_ & _ & _ & Hlinked & _ & _ & _ & Hround).
  split_and!; [exact Hmut | exact Hlinked | reflexivity |].
  apply (Hround (-3)); [lia|].
  vm_compute. repeat constructor; discriminate.
Defined.

Lemma create_order_reports_all_errors_witness :
  CreateOrder.mutate demo_store 0 demo_bad_order_input =
  Return
    (CreateOrder.mk None ["Customer not found."; "Invalid product ID(s): 7"],
     demo_store).
Proof.
  destruct (create_order_reports_all_errors demo_store 0 demo_bad_order_input)
    as [_ H].
  destruct (H 9 (Some "7") 7) as [Hmut _].
  - vm_compute. reflexivity.
  - vm_compute. reflexivity.
  - set_solver.
  - vm_compute. reflexivity.
  - vm_compute. set_solver.
  - exact Hmut.
Defined.

Lemma create_order_only_unparseable_ids_witness :
  CreateOrder.mutate demo_store 0 (OrderInput.mk "1" [Some "a"; None] None) =
  Return
    (CreateOrder.mk None
       ["Invalid product ID: a"; "Invalid product ID: None";
        "At least one product must be provided."],
     demo_store).
Proof.
  apply (create_order_only_unparseable_ids demo_store 0
           (OrderInput.mk "1" [Some "a"; None] None)).
  repeat constructor.
Defined.

(** ** Customer creation *)

Lemma existsb_elem_of {A} (f : A → bool) (l : list A) x :
  x ∈ l → f x = true → existsb f l = true.
Proof.
  intros Hx Hf. apply existsb_exists. exists x. split; [|done].
  by apply list_elem_of_In.
Qed.

Lemma create_customer_unfold db input :
  let name := Py.strip (CustomerInput.name input) in
  let email := Py.lower (Py.strip (CustomerInput.email input)) in
  let errors :=
    (if Py.truthy name then [] else ["Name is required."]) ++
    extend_phone_errors [] (CustomerInput.phone input) ++
    (if Store.email_exists db email then ["Email already exists."] else []) in
  CreateCustomer.mutate db input =
  match errors with
  | _ :: _ => (CreateCustomer.mk None None errors, db)
  | [] =>
      let '(customer, db) :=
        Store.save_customer db
          (Customer.mk None name email
             (Py.strip (or_empty (CustomerInput.phone input)))) in
      (CreateCustomer.mk (Some customer)
         (Some "Customer created successfully.") [], db)
  end.
Proof.
  unfold CreateCustomer.mutate, extend_phone_errors.
  destruct (Py.truthy (Py.strip (CustomerInput.name input)));
    destruct (_validate_phone (CustomerInput.phone input)) as [msgs|];
    destruct (Store.email_exists db _); simpl; rewrite ?app_nil_r;
    try reflexivity.
  all: try (destruct msgs; reflexivity).
  all: try (destruct (msgs ++ _) eqn:E;
            [by apply app_nil in E as [_ ?]|by rewrite <- E]).
  all: destruct msgs; simpl; try reflexivity.
Qed.

(** Claim C4. Email uniqueness ignores letter case: on a store whose
    emails carry no surrounding blanks, as do all the stores that the
    mutations build, when the input email differs only in letter case from
    the email of a stored customer, the mutation returns no customer,
    leaves the store alone, and reports "Email already exists.". *)
Theorem create_customer_rejects_case_variant db input c :
  Spec.emails_trimmed db →
  c ∈ Store.customers db →
  Py.lower (CustomerInput.email input) = Py.lower (Customer.email c) →
  ∃ errors,
    CreateCustomer.mutate db input = (CreateCustomer.mk None None errors, db) ∧
    "Email already exists." ∈ errors.
Proof.
  intros Hdb Hc Hcase. pose proof (Hdb c Hc) as Htrim.
  assert (Hex : Store.email_exists db
                  (Py.lower (Py.strip (CustomerInput.email input))) = true).
  { apply (existsb_elem_of _ _ c Hc). unfold Store.iexact.
    apply String.eqb_eq.
    by rewrite lower_idem, <- strip_lower, Hcase, strip_lower, Htrim. }
  rewrite create_customer_unfold. cbv zeta. rewrite Hex.
  match goal with |- context [match ?l with _ => _ end] => set (errs := l) end.
  assert (Hin : "Email already exists." ∈ errs) by (unfold errs; set_solver).
  exists errs. split; [|done].
  destruct errs; [by apply elem_of_nil in Hin | reflexivity].
Qed.

Lemma rstrip_idem s : Py.rstrip (Py.rstrip s) = Py.rstrip s.
Proof.
  unfold Py.rstrip. induction s as [|c s IH]; simpl; [done|].
  destruct (Py.rtrim Py.isspace s) as [|d u] eqn:E.
  - destruct (Py.isspace c) eqn:Hc; simpl; [done|]. by rewrite Hc.
  - change (Py.rtrim Py.isspace (String c (String d u)))
      with (match Py.rtrim Py.isspace (String d u) with
            | EmptyString =>
                if Py.isspace c then EmptyString else String c EmptyString
            | t' => String c t'
            end).
    by rewrite IH.
Qed.

Lemma lstrip_head s :
  Py.lstrip s = "" ∨
  ∃ c t, Py.lstrip s = String c t ∧ Py.isspace c = false.
Proof.
  unfold Py.lstrip. induction s as [|c s IH]; simpl; [by left|].
  destruct (Py.isspace c) eqn:Hc; [done|]. right. eauto.
Qed.

Lemma rstrip_head c t :
  Py.isspace c = false → ∃ u, Py.rstrip (String c t) = String c u.
Proof.
  intros Hc. unfold Py.rstrip. simpl.
  destruct (Py.rtrim Py.isspace t); [rewrite Hc|]; eauto.
Qed.

Lemma strip_idem s : Py.strip (Py.strip s) = Py.strip s.
Proof.
  unfold Py.strip.
  destruct (lstrip_head s) as [->|(c & t & -> & Hc)]; [done|].
  destruct (rstrip_head c t Hc) as [u Hu].
  rewrite Hu at 1. unfold Py.lstrip at 1. simpl Py.ltrim.
  rewrite Hc, <- Hu. apply rstrip_idem.
Qed.

Lemma strip_lower_strip s :
  Py.strip (Py.lower (Py.strip s)) = Py.lower (Py.strip s).
Proof. by rewrite strip_lower, strip_idem. Qed.

(** Claim C9. The claim asks that a blank email be refused. On an empty
    store, the input with name "Bob" and an email of two blanks is
    accepted instead: a customer with the empty email is saved and the
    error list is empty. The bulk mutation does refuse such a row with
    "Email is required.". *)
Theorem create_customer_accepts_blank_email :
  CreateCustomer.mutate Store.empty (CustomerInput.mk "Bob" "  " None) =
  (CreateCustomer.mk (Some (Customer.mk (Some 1) "Bob" "" ""))
     (Some "Customer created successfully.") [],
   Store.mk [Customer.mk (Some 1) "Bob" "" ""] [] [] []).
Proof. vm_compute. reflexivity. Qed.

(** ** Product creation *)

Lemma create_product_rejects db input :
  Decimal.coef (ProductInput.price input) ≤ 0 ∨
  default 0 (ProductInput.stock input) < 0 →
  ∃ errors,
    CreateProduct.mutate db input = Return (CreateProduct.mk None errors, db) ∧
    errors ≠ [].
Proof.
  intros H. unfold CreateProduct.mutate, Decimal.le_zero.
  destruct (Z.leb_spec (Decimal.coef (ProductInput.price input)) 0);
    destruct (Z.ltb_spec (default 0 (ProductInput.stock input)) 0);
    simpl; eauto; lia.
Qed.

Lemma create_product_success db input p errors db' :
  CreateProduct.mutate db input =
    Return (CreateProduct.mk (Some p) errors, db') →
  errors = [] ∧
  0 < Decimal.coef (ProductInput.price input) ∧
  Decimal.quantize_cents (ProductInput.price input) = Some (Product.price p) ∧
  Product.stock p = default 0 (ProductInput.stock input) ∧
  0 ≤ Product.stock p ∧
  Store.products db' = Store.products db ++ [p].
Proof.
  unfold CreateProduct.mutate, Decimal.le_zero.
  destruct (Z.leb_spec (Decimal.coef (ProductInput.price input)) 0);
    destruct (Z.ltb_spec (default 0 (ProductInput.stock input)) 0);
    simpl; try done.
  destruct (Decimal.quantize_cents _) as [rounded|]; [|done].
  simpl. intros [= <- <- <-]. simpl. split_and!; done || lia.
Qed.

(** Claim C5. The claim asks that every persisted price be positive. The
    price 0.004 is positive and passes the check, which runs before the
    rounding; it is then quantized to 0.00 and stored, so the stored price
    is not positive. *)
Theorem create_product_persists_zero_price :
  let input := ProductInput.mk "Pen" (Decimal.mk 4 (-3)) None in
  let stored := Product.mk 1 "Pen" (Decimal.mk 0 (-2)) 0 in
  Decimal.positive (ProductInput.price input) ∧
  CreateProduct.mutate Store.empty input =
    Return (CreateProduct.mk (Some stored) [], Store.mk [] [stored] [] []) ∧
  ¬ Decimal.positive (Product.price stored).
Proof.
  split_and!.
  - unfold Decimal.positive. simpl. lia.
  - vm_compute. reflexivity.
  - unfold Decimal.positive. simpl. lia.
Qed.

(** ** Phone validation *)

(** Claim C7. The claim asks that a phone be accepted only in one of the
    two formats. The phone made of "+1234567" followed by a line feed is
    in neither format and is accepted all the same, because [$] also
    matches just before a final line feed. *)
Theorem validate_phone_accepts_trailing_newline :
  let phone := "+1234567" +:+ String Re.newline "" in
  _validate_phone (Some phone) = inr (Some phone) ∧
  Spec.phone_format phone = false.
Proof. split; vm_compute; reflexivity. Qed.

(** ** The language of [PHONE_REGEX] *)

Lemma run_chr c s r : r ∈ Re.run (Re.Chr c) s ↔ s = String c r.
Proof.
  destruct s as [|x rest]; simpl; [by rewrite elem_of_nil|].
  destruct (Ascii.eqb_spec x c) as [->|Hne].
  - rewrite list_elem_of_singleton. split; congruence.
  - rewrite elem_of_nil. split; [done|]. congruence.
Qed.

Lemma run_digit s r :
  r ∈ Re.run Re.Digit s ↔ ∃ x, s = String x r ∧ Py.isdigit x = true.
Proof.
  destruct s as [|x rest]; simpl.
  - rewrite elem_of_nil. split; [done|]. by intros (? & ? & _).
  - destruct (Py.isdigit x) eqn:Hx.
    + rewrite list_elem_of_singleton. split; [intros ->; eauto|].
      by intros (? & [= -> ->] & _).
    + rewrite elem_of_nil. split; [done|].
      intros (? & [= -> ->] & ?). congruence.
Qed.

Lemma run_seq a b s r :
  r ∈ Re.run (Re.Seq a b) s ↔ ∃ m, m ∈ Re.run a s ∧ r ∈ Re.run b m.
Proof.
  simpl. rewrite list_elem_of_In, in_flat_map.
  by setoid_rewrite <- list_elem_of_In.
Qed.

Lemma run_alt a b s r :
  r ∈ Re.run (Re.Alt a b) s ↔ r ∈ Re.run a s ∨ r ∈ Re.run b s.
Proof. simpl. apply elem_of_app. Qed.

Lemma digits_cons x ds :
  Spec.digits (String x ds) = Py.isdigit x && Spec.digits ds.
Proof. reflexivity. Qed.

Lemma rep_digits lo hi s r :
  r ∈ Re.rep (Re.run Re.Digit) lo hi s ↔
  ∃ ds, s = ds +:+ r ∧ Spec.digits ds = true ∧
        (lo ≤ String.length ds ≤ hi)%nat.
Proof.
  revert lo s. induction hi as [|hi IH]; intros lo s; simpl.
  - rewrite app_nil_r. destruct lo as [|lo].
    + rewrite list_elem_of_singleton. split.
      * intros ->. exists "". split_and!; simpl; done || lia.
      * intros (ds & -> & _ & Hlen). destruct ds; simpl in *; [done|lia].
    + rewrite elem_of_nil. split; [done|]. intros (ds & _ & _ & Hlen). lia.
  - rewrite elem_of_app, (list_elem_of_In (flat_map _ _) r), in_flat_map.
    setoid_rewrite <- list_elem_of_In. setoid_rewrite IH.
    setoid_rewrite run_digit. split.
    + intros [H0|(m & (x & -> & Hx) & ds & -> & Hds & Hlen)].
      * destruct lo; [|by apply elem_of_nil in H0].
        apply list_elem_of_singleton in H0 as ->.
        exists "". split_and!; simpl; done || lia.
      * exists (String x ds). rewrite digits_cons, Hx, Hds. simpl.
        split_and!; done || lia.
    + intros (ds & -> & Hds & Hlen). destruct ds as [|x ds].
      * left. destruct lo; [|simpl in Hlen; lia]. by left.
      * right. rewrite digits_cons in Hds.
        apply andb_true_iff in Hds as [Hx Hds]. simpl in Hlen.
        exists (ds +:+ r). split; [eauto|].
        exists ds. split_and!; done || lia.
Qed.

Lemma append_cons x (a b : string) : String x a +:+ b = String x (a +:+ b).
Proof. reflexivity. Qed.

Lemma append_empty_l (b : string) : "" +:+ b = b.
Proof. reflexivity. Qed.

Lemma append_assoc (a b c : string) : (a +:+ b) +:+ c = a +:+ (b +:+ c).
Proof.
  induction a as [|x a IH]; [done|]. by rewrite !append_cons, IH.
Qed.

Lemma append_empty_r (a : string) : a +:+ "" = a.
Proof. induction a as [|x a IH]; [done|]. by rewrite append_cons, IH. Qed.

Ltac norm_append := rewrite ?append_assoc, ?append_cons, ?append_empty_l.

Lemma plus_digits_spec s :
  Spec.plus_digits s = true ↔
  ∃ ds, s = String "+" ds ∧ Spec.digits ds = true ∧
        (7 ≤ String.length ds ≤ 15)%nat.
Proof.
  unfold Spec.plus_digits. destruct s as [|c ds].
  - split; [done|]. by intros (? & ? & _).
  - rewrite !andb_true_iff, !Nat.leb_le, Ascii.eqb_eq. split.
    + intros [[[-> ?] ?] ?]. eauto.
    + intros (? & [= -> <-] & ? & ? & ?). done.
Qed.

Lemma length3 (a : string) :
  String.length a = 3%nat → ∃ x y z, a = String x (String y (String z "")).
Proof. destruct a as [|x [|y [|z [|]]]]; try done. eauto. Qed.

Lemma length4 (a : string) :
  String.length a = 4%nat →
  ∃ w x y z, a = String w (String x (String y (String z ""))).
Proof. destruct a as [|w [|x [|y [|z [|]]]]]; try done. eauto 6. Qed.

Lemma dashed_spec s :
  Spec.dashed s = true ↔
  ∃ a b c, s = a +:+ "-" +:+ b +:+ "-" +:+ c ∧
           Spec.digits a = true ∧ Spec.digits b = true ∧
           Spec.digits c = true ∧ String.length a = 3%nat ∧
           String.length b = 3%nat ∧ String.length c = 4%nat.
Proof.
  split.
  - unfold Spec.dashed.
    do 12 (destruct s as [|? s]; [done|]). destruct s; [|done].
    simpl. rewrite !andb_true_iff.
    intros [[(? & ? & ? & ? & ? & ? & ? & ? & ? & ? & _)
               ?%Ascii.eqb_eq] ?%Ascii.eqb_eq]; subst.
    eexists (String _ (String _ (String _ ""))),
            (String _ (String _ (String _ ""))),
            (String _ (String _ (String _ (String _ "")))).
    split; [reflexivity|]. unfold Spec.digits. simpl.
    rewrite !andb_true_iff. split_and!; done.
  - intros (a & b & c & -> & Ha & Hb & Hc & (? & ? & ? & ->)%length3
            & (? & ? & ? & ->)%length3 & (? & ? & ? & ? & ->)%length4).
    unfold Spec.dashed, Spec.digits in *. norm_append. simpl in *.
    rewrite !andb_true_iff in *. split_and!; tauto.
Qed.

Lemma phone_format_spec s :
  Spec.phone_format s = true ↔
  (∃ ds, s = String "+" ds ∧ Spec.digits ds = true ∧
         (7 ≤ String.length ds ≤ 15)%nat) ∨
  (∃ a b c, s = a +:+ "-" +:+ b +:+ "-" +:+ c ∧
            Spec.digits a = true ∧ Spec.digits b = true ∧
            Spec.digits c = true ∧ String.length a = 3%nat ∧
            String.length b = 3%nat ∧ String.length c = 4%nat).
Proof.
  unfold Spec.phone_format.
  by rewrite orb_true_iff, plus_digits_spec, dashed_spec.
Qed.

Lemma run_phone_regex s r :
  r ∈ Re.run PHONE_REGEX s ↔
  ∃ p, s = p +:+ r ∧ Spec.phone_format p = true.
Proof.
  unfold PHONE_REGEX. rewrite run_alt, !run_seq.
  setoid_rewrite phone_format_spec. split.
  - intros [(m & ->%run_chr & (ds & -> & Hds & Hlen)%rep_digits)|H].
    + exists (String "+" ds). split; [done|]. left. eauto.
    + destruct H as (m1 & (a & -> & Ha & Hla)%rep_digits & H).
      apply run_seq in H as (m2 & ->%run_chr & H).
      apply run_seq in H as (m3 & (b & -> & Hb & Hlb)%rep_digits & H).
      apply run_seq in H as (m4 & ->%run_chr & (c & -> & Hc & Hlc)%rep_digits).
      exists (a +:+ "-" +:+ b +:+ "-" +:+ c). split.
      * by repeat norm_append.
      * right. exists a, b, c. split_and!; done || lia.
  - intros (p & -> & [(ds & -> & Hds & Hlen)|
                      (a & b & c & -> & Ha & Hb & Hc & Hla & Hlb & Hlc)]).
    + left. exists (ds +:+ r). split; [by apply run_chr|].
      apply rep_digits. eauto.
    + right. exists ("-" +:+ b +:+ "-" +:+ c +:+ r). split.
      { apply rep_digits. exists a. repeat norm_append.
        split_and!; done || lia. }
      apply run_seq. exists (b +:+ "-" +:+ c +:+ r).
      split; [by apply run_chr|].
      apply run_seq. exists ("-" +:+ c +:+ r). split.
      { apply rep_digits. exists b. split_and!; done || lia. }
      apply run_seq. exists (c +:+ r). split; [by apply run_chr|].
      apply rep_digits. exists c. split_and!; done || lia.
Qed.

Lemma at_dollar_spec r :
  Re.at_dollar r = true ↔ r = "" ∨ r = String Re.newline "".
Proof.
  destruct r as [|c [|d r]]; simpl.
  - split; [by left|done].
  - rewrite Ascii.eqb_eq. split; [intros ->; by right|].
    by intros [?|[= ->]].
  - split; [done|]. by intros [?|?].
Qed.

(** The phones that the pattern matches: those in one of the two formats,
    and those same phones followed by one line feed. *)
Lemma phone_regex_language s :
  Re.match_ PHONE_REGEX s = true ↔
  Spec.phone_format s = true ∨
  ∃ p, s = p +:+ String Re.newline "" ∧ Spec.phone_format p = true.
Proof.
  unfold Re.match_. rewrite existsb_exists.
  setoid_rewrite <- list_elem_of_In. setoid_rewrite run_phone_regex.
  setoid_rewrite at_dollar_spec. split.
  - intros (r & (p & -> & Hp) & [->| ->]).
    + left. by rewrite append_empty_r.
    + right. eauto.
  - intros [Hs|(p & -> & Hp)].
    + exists "". split; [|by left]. exists s. by rewrite append_empty_r.
    + exists (String Re.newline ""). split; [eauto|by right].
Qed.

(** Every phone in one of the two formats passes validation, and so does
    a missing or empty phone. *)
Lemma validate_phone_accepts_formats phone :
  phone = None ∨ phone = Some "" ∨
  (∃ p, phone = Some p ∧ Spec.phone_format p = true) →
  Spec.phone_accepted phone = true.
Proof.
  unfold Spec.phone_accepted, _validate_phone.
  intros [->|[->|(p & -> & Hp)]]; [done..|].
  assert (Re.match_ PHONE_REGEX p = true) as ->
    by (apply phone_regex_language; by left).
  by rewrite andb_false_r.
Qed.

(** What validation accepts, exactly. *)
Lemma validate_phone_accepted_iff p :
  Spec.phone_accepted (Some p) = true ↔
  p = "" ∨ Spec.phone_format p = true ∨
  ∃ q, p = q +:+ String Re.newline "" ∧ Spec.phone_format q = true.
Proof.
  unfold Spec.phone_accepted, _validate_phone.
  rewrite <- phone_regex_language.
  destruct p as [|c p]; simpl; [split; [by left|done]|].
  destruct (Re.match_ PHONE_REGEX (String c p)); simpl.
  - split; [by right|done].
  - split; [done|]. by intros [?|?].
Qed.

(** ** Filtered queries *)

Section FilteringFacts.

Context {Value Queryset : Type}.
Implicit Types (fi : gmap string (option Value)) (payload : gmap string Value).

Lemma build_payload_lookup_inv fi mapping payload lookup v :
  build_payload fi mapping payload !! lookup = Some v →
  payload !! lookup = Some v ∨
  ∃ attr, (attr, lookup) ∈ mapping ∧ getattr fi attr = Some v.
Proof.
  revert payload. induction mapping as [|[attr lk] rest IH];
    intros payload; simpl; [by left|].
  destruct (getattr fi attr) as [value|] eqn:Hattr.
  - intros [Hl|(a & Ha & Hv)]%IH.
    + destruct (decide (lk = lookup)) as [->|Hne].
      * rewrite lookup_insert_eq in Hl. injection Hl as ->.
        right. exists attr. split; [by left|done].
      * rewrite lookup_insert_ne in Hl by done. by left.
    + right. exists a. split; [by right|done].
  - intros [Hl|(a & Ha & Hv)]%IH; [by left|].
    right. exists a. split; [by right|done].
Qed.

Lemma build_payload_lookup_fresh fi mapping payload lookup :
  lookup ∉ mapping.*2 →
  build_payload fi mapping payload !! lookup = payload !! lookup.
Proof.
  revert payload. induction mapping as [|[attr lk] rest IH];
    intros payload Hfresh; simpl; [done|].
  rewrite fmap_cons in Hfresh. apply not_elem_of_cons in Hfresh as [Hne Hrest].
  simpl in Hne.
  destruct (getattr fi attr) as [value|]; rewrite IH by done; [|done].
  by rewrite lookup_insert_ne.
Qed.

Lemma build_payload_lookup fi mapping payload attr lookup :
  NoDup mapping.*2 → (attr, lookup) ∈ mapping → payload !! lookup = None →
  build_payload fi mapping payload !! lookup = getattr fi attr.
Proof.
  revert payload. induction mapping as [|[a lk] rest IH];
    intros payload Hnd Hin Hnone; [by apply elem_of_nil in Hin|].
  rewrite fmap_cons in Hnd. apply NoDup_cons in Hnd as [Hfresh Hnd].
  simpl in Hfresh. apply elem_of_cons in Hin as [[= <- <-]|Hin]; simpl.
  - destruct (getattr fi attr) as [value|] eqn:Hattr;
      rewrite build_payload_lookup_fresh by done; [|done].
    apply lookup_insert_eq.
  - assert (lk ≠ lookup).
    { intros ->. apply Hfresh. apply list_elem_of_fmap.
      by exists (attr, lookup). }
    destruct (getattr fi a) as [value|]; apply IH; try done.
    by rewrite lookup_insert_ne.
Qed.

Lemma truthy_append a b : Py.truthy (a +:+ b) = Py.truthy a || Py.truthy b.
Proof. by destruct a. Qed.

Lemma truthy_join sep m ms :
  Py.truthy m = true → Py.truthy (Py.join sep (m :: ms)) = true.
Proof.
  intros Hm. destruct ms; simpl; [done|]. by rewrite truthy_append, Hm.
Qed.

Lemma error_messages_truthy (errors : list (string * list string)) :
  errors ≠ [] → Forall (fun fe => fe.2 ≠ []) errors →
  Py.truthy (Py.join "; " (error_messages errors)) = true.
Proof.
  destruct errors as [|[field [|error rest]] more]; [done| |].
  - intros _ [Hne _]%Forall_cons. done.
  - intros _ _. unfold error_messages. simpl flat_map.
    apply truthy_join.
    rewrite !truthy_append. simpl. by rewrite orb_true_r.
Qed.

(** Claim C8. The payload handed to the filter-set holds, under each
    lookup of the mapping, exactly what the filter input holds under the
    matching field, and nothing when that field is absent or null; no
    other key is set. With an empty or missing filter input, or when the
    filter-set reports no errors, the filtered queryset is returned.
    Otherwise a single [GraphQLError] is raised whose message is the
    "field: error" texts of all field errors joined with "; ". *)
Theorem filter_queryset_payload_and_errors
    (fs : FilterSet Value Queryset) (queryset : Queryset)
    (filter_input : option (gmap string (option Value)))
    (mapping : list (string * string)) :
  NoDup mapping.*2 →
  let fi := default ∅ filter_input in
  let payload := build_payload fi mapping ∅ in
  let errors := fs_errors fs payload queryset in
  (∀ attr lookup,
     (attr, lookup) ∈ mapping → payload !! lookup = getattr fi attr) ∧
  (∀ lookup, lookup ∉ mapping.*2 → payload !! lookup = None) ∧
  (fi = ∅ ∨ errors = [] →
   _filter_queryset queryset filter_input mapping fs =
     Return (fs_qs fs payload queryset)) ∧
  (fi ≠ ∅ → errors ≠ [] → Forall (fun fe => fe.2 ≠ []) errors →
   _filter_queryset queryset filter_input mapping fs =
     Raise (GraphQLError (Py.join "; " (error_messages errors)))).
Proof.
  intros Hnd fi payload errors.
  assert (Hempty : fi = ∅ → payload = ∅).
  { intros Hfi. apply map_eq. intros lookup. rewrite lookup_empty.
    destruct (payload !! lookup) as [v|] eqn:E; [|done].
    apply build_payload_lookup_inv in E as [E|(attr & _ & E)].
    - by rewrite lookup_empty in E.
    - unfold getattr in E. by rewrite Hfi, lookup_empty in E. }
  split_and!.
  - intros attr lookup Hin. by apply build_payload_lookup.
  - intros lookup Hfresh. unfold payload.
    by rewrite build_payload_lookup_fresh.
  - intros Hcase. unfold _filter_queryset.
    destruct filter_input as [m|]; simpl in *.
    + case_bool_decide as Hm; [by rewrite (Hempty Hm)|].
      destruct Hcase as [?|Hok]; [done|].
      unfold is_valid. fold fi payload errors. by rewrite Hok.
    + by rewrite Hempty.
  - intros Hfi Herr Hwf. unfold _filter_queryset.
    destruct filter_input as [m|]; simpl in *; [|done].
    rewrite bool_decide_eq_false_2 by done.
    unfold is_valid. fold fi payload errors.
    destruct errors as [|e es] eqn:E; [done|].
    unfold str_or. by rewrite error_messages_truthy.
Qed.

End FilteringFacts.

(** ** Bulk customer creation *)

Import BulkCreateCustomers.


Import BulkCreateCustomers.

Lemma loop_app ex i xs ys a :
  loop ex i (xs ++ ys) a = loop ex (i + length xs)%nat ys (loop ex i xs a).
Proof.
  revert i a. induction xs as [|x xs IH]; intros i a; simpl.
  - by rewrite Nat.add_0_r.
  - rewrite IH. f_equal. lia.
Qed.

Lemma loop_snoc ex xs p :
  loop ex 0 (xs ++ [p]) init = body ex (length xs) p (loop ex 0 xs init).
Proof. by rewrite loop_app. Qed.

Lemma seen_before_snoc db xs p j :
  (j ≤ length xs)%nat →
  Spec.seen_before db (xs ++ [p]) j = Spec.seen_before db xs j.
Proof. intros Hj. unfold Spec.seen_before. by rewrite take_app_le. Qed.

Lemma seen_before_length db xs :
  Spec.seen_before db xs (length xs) =
  seen_emails (loop (existing_emails db) 0 xs init).
Proof. unfold Spec.seen_before. by rewrite firstn_all. Qed.

Lemma entry_text j errs :
  entry j errs =
  "Entry " +:+ Py.str (Z.of_nat (j + 1)) +:+ ": " +:+ Py.join "; " errs.
Proof. unfold entry. by rewrite Nat2Z.inj_add. Qed.

Lemma loop_rows db xs :
  let a := loop (existing_emails db) 0 xs init in
  acc_errors a = omap id (imap (Spec.row_error db xs) xs) ∧
  pending a = omap id (imap (Spec.row_customer db xs) xs).
Proof.
  induction xs as [|p xs IH] using rev_ind; [done|].
  cbv zeta in *. destruct IH as [IHe IHp].
  rewrite loop_snoc, !imap_app, !omap_app. simpl imap. rewrite Nat.add_0_r.
  rewrite (imap_ext (Spec.row_error db (xs ++ [p])) (Spec.row_error db xs)).
  2:{ intros j x Hj. unfold Spec.row_error, Spec.row_verdict.
      rewrite seen_before_snoc; [done|]. apply lookup_lt_Some in Hj. lia. }
  rewrite (imap_ext (Spec.row_customer db (xs ++ [p]))
             (Spec.row_customer db xs)).
  2:{ intros j x Hj. unfold Spec.row_customer, Spec.row_verdict.
      rewrite seen_before_snoc; [done|]. apply lookup_lt_Some in Hj. lia. }
  rewrite <- IHe, <- IHp.
  unfold Spec.row_error, Spec.row_customer, Spec.row_verdict.
  rewrite seen_before_snoc by done. rewrite seen_before_length.
  unfold body.
  destruct (row_errors _ _ p); simpl; rewrite ?app_nil_r; [done|].
  by rewrite entry_text.
Qed.

Lemma bulk_create_spec db pending :
  let '(created, db') := Store.bulk_create db pending in
  Forall2 Spec.saved_from created pending ∧
  Store.customers db' = Store.customers db ++ created ∧
  Store.products db' = Store.products db ∧
  Store.orders db' = Store.orders db ∧
  Store.order_products db' = Store.order_products db.
Proof.
  revert db. induction pending as [|u us IH]; intros db; simpl.
  - by rewrite app_nil_r.
  - specialize (IH (Store.save_customer db u).2).
    unfold Store.save_customer in *. simpl in *.
    destruct (Store.bulk_create _ us) as [others db2].
    destruct IH as (Hall & Hc & Hp & Ho & Hl). simpl in *.
    split_and!; try done.
    + constructor; [|done]. unfold Spec.saved_from. simpl. eauto.
    + by rewrite Hc, <- app_assoc.
Qed.

Lemma bulk_mutate_unfold db input :
  input ≠ [] →
  BulkCreateCustomers.mutate db input =
  let a := loop (existing_emails db) 0 input init in
  let '(created, db') := Store.bulk_create db (pending a) in
  Return (BulkCreateCustomers.mk created (acc_errors a), db').
Proof.
  intros Hne. unfold BulkCreateCustomers.mutate.
  destruct input as [|p ps]; [done|]. cbv zeta.
  by destruct (pending _).
Qed.

Lemma rows_split_length {A B C} (v : nat → A → list string)
    (ok : nat → A → B) (ko : nat → list string → C) (l : list A) :
  (length (omap id (imap (fun j p =>
                            match v j p with
                            | [] => Some (ok j p)
                            | _ :: _ => None
                            end) l)) +
   length (omap id (imap (fun j p =>
                            match v j p with
                            | [] => None
                            | errs => Some (ko j errs)
                            end) l)))%nat = length l.
Proof.
  revert v ok ko. induction l as [|x l IH]; intros v ok ko; [done|].
  rewrite !imap_cons. simpl.
  specialize (IH (v ∘ S) (ok ∘ S) (ko ∘ S)). unfold compose in *.
  destruct (v 0%nat x); simpl;
    [|rewrite Nat.add_succ_r]; f_equal; exact IH.
Qed.

(** Claim C6. For a non-empty batch the mutation returns; its error list
    holds, in row order, one text for every row whose checks found
    something and nothing for the other rows, the text being [Entry], the
    position of the row counted from 1, a colon, and the messages of the
    row joined by semicolons ([Spec.row_error]); the created customers
    are, in row order, the saved forms of exactly the rows whose checks
    found nothing; they are appended to the table; and every row is
    counted once, as a customer or as an error. *)
Theorem bulk_create_judges_rows_one_by_one db input :
  input ≠ [] →
  ∃ created db',
    BulkCreateCustomers.mutate db input =
      Return
        (BulkCreateCustomers.mk created
           (omap id (imap (Spec.row_error db input) input)),
         db') ∧
    Forall2 Spec.saved_from created
      (omap id (imap (Spec.row_customer db input) input)) ∧
    Store.customers db' = Store.customers db ++ created ∧
    (length created + length (omap id (imap (Spec.row_error db input) input))
     = length input)%nat.
Proof.
  intros Hne. rewrite bulk_mutate_unfold by done. cbv zeta.
  destruct (loop_rows db input) as [He Hp]. rewrite He, Hp.
  pose proof (bulk_create_spec db
                (omap id (imap (Spec.row_customer db input) input))) as Hb.
  destruct (Store.bulk_create _ _) as [created db'].
  destruct Hb as (Hall & Hc & _).
  exists created, db'. split_and!; try done.
  rewrite (Forall2_length _ _ _ Hall).
  exact (rows_split_length (Spec.row_verdict db input)
           (fun _ payload =>
              Customer.mk None (name_of payload) (email_of payload)
                (phone_of payload))
           (fun j errs =>
              "Entry " +:+ Py.str (Z.of_nat (j + 1)) +:+ ": " +:+
                Py.join "; " errs)
           input).
Qed.

Lemma row_errors_nil ex seen payload :
  row_errors ex seen payload = [] →
  Py.truthy (email_of payload) = true ∧ (email_of payload ∉ ex) ∧
  email_of payload ∉ seen.
Proof.
  unfold row_errors, extend_phone_errors.
  destruct (_validate_phone (Some (phone_of payload))) as [msgs|];
    destruct (Py.truthy (name_of payload)); simpl;
    destruct (Py.truthy (email_of payload)); simpl;
    repeat case_bool_decide; simpl; try done;
    intros E; apply app_nil in E as [E _]; done.
Qed.

Lemma body_inv ex i payload a :
  Spec.loop_inv ex a → Spec.loop_inv ex (body ex i payload a).
Proof.
  intros [Hseen Hq]. unfold body.
  destruct (row_errors ex (seen_emails a) payload) eqn:E; [|done].
  apply row_errors_nil in E as (Ht & Hex & _).
  split; simpl; intros e; rewrite fmap_app, elem_of_app; simpl.
  - rewrite elem_of_union, elem_of_singleton, Hseen. set_solver.
  - intros [He|He]; [by apply Hq|].
    apply list_elem_of_singleton in He as ->. done.
Qed.

Lemma loop_inv_loop ex i xs a :
  Spec.loop_inv ex a → Spec.loop_inv ex (loop ex i xs a).
Proof.
  revert i a. induction xs as [|x xs IH]; intros i a Ha; simpl; [done|].
  by apply IH, body_inv.
Qed.

Lemma loop_inv_init ex : Spec.loop_inv ex init.
Proof. split; intros e; simpl; set_solver. Qed.

Lemma loop_errors_prefix ex i xs a :
  acc_errors a `prefix_of` acc_errors (loop ex i xs a).
Proof.
  revert i a. induction xs as [|x xs IH]; intros i a; simpl; [done|].
  etrans; [|apply IH]. unfold body.
  destruct (row_errors _ _ _); simpl; [done|]. by apply prefix_app_r.
Qed.

Lemma loop_queue_indep ex i j xs a b :
  pending a = pending b → seen_emails a = seen_emails b →
  pending (loop ex i xs a) = pending (loop ex j xs b) ∧
  seen_emails (loop ex i xs a) = seen_emails (loop ex j xs b).
Proof.
  revert i j a b. induction xs as [|x xs IH]; intros i j a b Hp Hs; simpl;
    [done|].
  apply IH; unfold body; rewrite Hs;
    destruct (row_errors _ _ _); simpl; congruence.
Qed.

Lemma row_errors_repeat ex seen payload :
  email_of payload ∈ seen → email_of payload ∉ ex →
  Py.truthy (email_of payload) = true →
  "Duplicate email within request." ∈ row_errors ex seen payload ∧
  "Email already exists." ∉ row_errors ex seen payload.
Proof.
  intros Hs He Ht. unfold row_errors, extend_phone_errors. rewrite Ht. simpl.
  rewrite bool_decide_eq_false_2, bool_decide_eq_true_2 by done.
  unfold _validate_phone.
  destruct (Py.truthy (name_of payload)); simpl;
    destruct (_ && _); simpl; split; set_solver.
Qed.

Lemma saved_from_emails created pending :
  Forall2 Spec.saved_from created pending →
  Customer.email <$> created = Customer.email <$> pending.
Proof.
  induction 1 as [|c u cs us (_ & _ & He & _) _ IH]; [done|].
  rewrite !fmap_cons. congruence.
Qed.

(** Claim C3, as amended. When a row repeats the email of an earlier row
    of the batch that passed its checks and was queued for insertion, the
    row is reported under its 1-based index with "Duplicate email within
    request." and without "Email already exists.", and it is not inserted:
    the batch without that row creates the same customers and leaves the
    same store. *)
Theorem bulk_create_flags_repeat_of_queued_email
    db pre payload post r1 db1 c :
  BulkCreateCustomers.mutate db pre = Return (r1, db1) →
  c ∈ customers r1 →
  Customer.email c = email_of payload →
  ∃ r db' errs errors',
    BulkCreateCustomers.mutate db (pre ++ payload :: post) = Return (r, db') ∧
    entry (length pre) errs ∈ errors r ∧
    "Duplicate email within request." ∈ errs ∧
    ("Email already exists." ∉ errs) ∧
    BulkCreateCustomers.mutate db (pre ++ post) =
      Return (BulkCreateCustomers.mk (customers r) errors', db').
Proof.
  intros Hpre Hc Hemail.
  assert (Hne : pre ≠ []) by (intros ->; done).
  rewrite bulk_mutate_unfold in Hpre by done. cbv zeta in Hpre.
  set (ex := existing_emails db) in *.
  set (a := loop ex 0 pre init) in *.
  pose proof (loop_inv_loop ex 0 pre init (loop_inv_init ex)) as [Hseen Hq].
  fold a in Hseen, Hq.
  pose proof (bulk_create_spec db (pending a)) as Hb.
  destruct (Store.bulk_create db (pending a)) as [created1 db1'].
  destruct Hb as (Hall & _). injection Hpre as <- <-. simpl in Hc.
  assert (Hin : email_of payload ∈ Customer.email <$> pending a).
  { rewrite <- (saved_from_emails _ _ Hall), <- Hemail.
    apply list_elem_of_fmap. eauto. }
  destruct (Hq _ Hin) as [Hex Ht]. apply Hseen in Hin.
  destruct (row_errors_repeat ex (seen_emails a) payload Hin Hex Ht)
    as [Hdup Hnot].
  set (errs := row_errors ex (seen_emails a) payload) in *.
  set (a' := mk_acc (pending a) (acc_errors a ++ [entry (length pre) errs])
               (seen_emails a)).
  assert (Hbody : body ex (length pre) payload a = a').
  { unfold body. fold errs. destruct errs; [by apply elem_of_nil in Hdup|done]. }
  assert (Hloop : loop ex 0 (pre ++ payload :: post) init =
                  loop ex (S (length pre)) post a').
  { rewrite loop_app. simpl. fold a. by rewrite Hbody. }
  assert (Hloop' : loop ex 0 (pre ++ post) init = loop ex (length pre) post a).
  { by rewrite loop_app. }
  destruct (loop_queue_indep ex (S (length pre)) (length pre) post a' a)
    as [Hpend _]; [done..|].
  rewrite !bulk_mutate_unfold by (by destruct pre). cbv zeta.
  fold ex. rewrite Hloop, Hloop', Hpend.
  destruct (Store.bulk_create db _) as [created db'].
  eexists _, db', errs, _. split_and!; try done. simpl.
  destruct (loop_errors_prefix ex (S (length pre)) post a') as [more ->].
  simpl. set_solver.
Qed.

(** ** Stored emails stay trimmed *)

Lemma emails_trimmed_empty : Spec.emails_trimmed Store.empty.
Proof. intros c Hc. by apply elem_of_nil in Hc. Qed.

Lemma create_customer_keeps_emails_trimmed db input :
  Spec.emails_trimmed db →
  Spec.emails_trimmed (CreateCustomer.mutate db input).2.
Proof.
  intros Hdb. rewrite create_customer_unfold. cbv zeta.
  match goal with |- context [match ?l with _ => _ end] => destruct l end;
    [|done].
  simpl. intros c [Hc|Hc]%elem_of_app; [by apply Hdb|].
  apply list_elem_of_singleton in Hc as ->. simpl. apply strip_lower_strip.
Qed.

Lemma loop_pending_emails_trimmed ex i xs a :
  Forall (fun c => Py.strip (Customer.email c) = Customer.email c) (pending a) →
  Forall (fun c => Py.strip (Customer.email c) = Customer.email c)
    (pending (loop ex i xs a)).
Proof.
  revert i a. induction xs as [|x xs IH]; intros i a Ha; simpl; [done|].
  apply IH. unfold body. destruct (row_errors _ _ _); [|done]. simpl.
  apply Forall_app. split; [done|]. constructor; [|done].
  simpl. apply strip_lower_strip.
Qed.

Lemma bulk_create_keeps_emails_trimmed db input r db' :
  Spec.emails_trimmed db →
  BulkCreateCustomers.mutate db input = Return (r, db') →
  Spec.emails_trimmed db'.
Proof.
  intros Hdb Hmut.
  assert (Hne : input ≠ []) by (intros ->; done).
  rewrite bulk_mutate_unfold in Hmut by done. cbv zeta in Hmut.
  pose proof (loop_pending_emails_trimmed (existing_emails db) 0 input init
                (Forall_nil_2 _)) as Hq.
  pose proof (bulk_create_spec db
                (pending (loop (existing_emails db) 0 input init))) as Hb.
  destruct (Store.bulk_create _ _) as [created db2].
  destruct Hb as (Hall & Hc & _). injection Hmut as <- <-.
  intros c. rewrite Hc. intros [Hin|Hin]%elem_of_app; [by apply Hdb|].
  clear Hc. induction Hall as [|c' u cs us (_ & _ & He & _) _ IH].
  - by apply elem_of_nil in Hin.
  - apply Forall_cons in Hq as [Hu Hq].
    apply elem_of_cons in Hin as [->|Hin]; [by rewrite He|by apply IH].
Qed.

Lemma create_product_keeps_customers db input r db' :
  CreateProduct.mutate db input = Return (r, db') →
  Store.customers db' = Store.customers db.
Proof.
  unfold CreateProduct.mutate.
  destruct (Decimal.le_zero _), (_ <? 0); simpl; try by intros [= <- <-].
  destruct (Decimal.quantize_cents _); [|done]. by intros [= <- <-].
Qed.

Lemma create_order_keeps_customers db now input r db' :
  CreateOrder.mutate db now input = Return (r, db') →
  Store.customers db' = Store.customers db.
Proof.
  rewrite create_order_unfold.
  destruct (Spec.order_checks db input); [|by intros [= <- <-]].
  destruct (Decimal.quantize_cents _); [|done].
  destruct (_ ≫= _); [|done]. by intros [= <- <-].
Qed.

(** ** Invariants of the reachable stores *)

Lemma create_customer_store db input :
  let db' := (CreateCustomer.mutate db input).2 in
  Store.products db' = Store.products db ∧
  Store.orders db' = Store.orders db ∧
  Store.order_products db' = Store.order_products db.
Proof.
  rewrite create_customer_unfold. cbv zeta.
  match goal with |- context [match ?l with _ => _ end] => destruct l end;
    done.
Qed.

Lemma bulk_create_store db input r db' :
  BulkCreateCustomers.mutate db input = Return (r, db') →
  Store.products db' = Store.products db ∧
  Store.orders db' = Store.orders db ∧
  Store.order_products db' = Store.order_products db.
Proof.
  intros Hmut.
  assert (Hne : input ≠ []) by (intros ->; done).
  rewrite bulk_mutate_unfold in Hmut by done. cbv zeta in Hmut.
  pose proof (bulk_create_spec db
                (pending (loop (existing_emails db) 0 input init))) as Hb.
  destruct (Store.bulk_create _ _) as [created db2].
  destruct Hb as (_ & _ & ? & ? & ?). by injection Hmut as <- <-.
Qed.

Lemma consistent_empty : Spec.consistent Store.empty.
Proof.
  split; [constructor|]. intros link Hl. by apply elem_of_nil in Hl.
Qed.

Lemma create_product_keeps_consistent db input r db' :
  Spec.consistent db →
  CreateProduct.mutate db input = Return (r, db') →
  Spec.consistent db'.
Proof.
  intros [Hnd Hlinks]. unfold CreateProduct.mutate.
  destruct (Decimal.le_zero _), (_ <? 0); simpl;
    try by (intros [= <- <-]; split).
  destruct (Decimal.quantize_cents _); [|done]. intros [= <- <-].
  split; simpl; [|done].
  rewrite fmap_app. apply NoDup_app. split_and!; [done| |apply NoDup_singleton].
  intros x Hx Heq%list_elem_of_singleton. simpl in Heq.
  apply next_pk_fresh in Hx. lia.
Qed.

Lemma create_order_keeps_consistent db now input r db' :
  Spec.consistent db →
  CreateOrder.mutate db now input = Return (r, db') →
  Spec.consistent db'.
Proof.
  intros [Hnd Hlinks]. rewrite create_order_unfold.
  destruct (Spec.order_checks db input); [|by intros [= <- <-]].
  destruct (Decimal.quantize_cents _); [|done].
  destruct (_ ≫= _); [|done]. intros [= <- <-].
  split; simpl; [done|].
  intros link. rewrite fmap_app, !elem_of_app.
  intros [Hl|(p & -> & _)%list_elem_of_fmap]; [left; by apply Hlinks|].
  right. simpl. by left.
Qed.

Lemma reachable_consistent db : Spec.reachable db → Spec.consistent db.
Proof.
  induction 1 as [|db input _ IH|db input r db' _ IH Hmut
                  |db input r db' _ IH Hmut|db now input r db' _ IH Hmut].
  - apply consistent_empty.
  - destruct (create_customer_store db input) as (Hp & Ho & Hl).
    unfold Spec.consistent. by rewrite Hp, Ho, Hl.
  - destruct (bulk_create_store db input r db' Hmut) as (Hp & Ho & Hl).
    unfold Spec.consistent. by rewrite Hp, Ho, Hl.
  - by eapply create_product_keeps_consistent.
  - by eapply create_order_keeps_consistent.
Qed.

Lemma reachable_emails_trimmed db :
  Spec.reachable db → Spec.emails_trimmed db.
Proof.
  induction 1 as [|db input _ IH|db input r db' _ IH Hmut
                  |db input r db' _ IH Hmut|db now input r db' _ IH Hmut].
  - apply emails_trimmed_empty.
  - by apply create_customer_keeps_emails_trimmed.
  - by eapply bulk_create_keeps_emails_trimmed.
  - unfold Spec.emails_trimmed.
    by rewrite (create_product_keeps_customers _ _ _ _ Hmut).
  - unfold Spec.emails_trimmed.
    by rewrite (create_order_keeps_customers _ _ _ _ _ Hmut).
Qed.

(** The success branch always has a customer to attach: the mutation
    never runs into the foreign-key failure. *)
Lemma create_order_no_integrity_error db now input :
  CreateOrder.mutate db now input ≠ Raise IntegrityError.
Proof.
  rewrite create_order_unfold.
  destruct (Spec.order_checks db input) eqn:Hchecks; [|done].
  destruct (Decimal.quantize_cents _); [|done].
  unfold Spec.order_checks, Spec.customer_id_errors, Spec.customer_errors
    in Hchecks.
  destruct (Py.int (Some (OrderInput.customer_id input))) as [pk|]; [|done].
  simpl in *. destruct (Store.get_customer db pk); [done|].
  apply app_nil in Hchecks as [_ Hchecks].
  apply app_nil in Hchecks as [_ Hchecks]. done.
Qed.

Lemma filter_mappings_NoDup :
  NoDup customer_filter_mapping.*2 ∧ NoDup product_filter_mapping.*2 ∧
  NoDup order_filter_mapping.*2.
Proof. split_and!; vm_compute; repeat constructor; set_solver. Qed.

(** ** Worked instances *)

(** Claim C3, as first stated, fails: the first row of this batch is
    refused for its blank name, so its email is never recorded as seen and
    the second row, which carries the same email, is inserted without any
    duplicate report. *)
Lemma bulk_create_repeat_after_rejected_row :
  ¬ Spec.flags_every_repeat Store.empty repeat_after_rejected_row.
Proof.
  intros H.
  destruct (H 0%nat 1%nat (CustomerInput.mk "" "a@example.com" None)
              (CustomerInput.mk "Bob" " A@Example.com " None))
    as (r & db' & errs & Hmut & Hin & _).
  - lia.
  - reflexivity.
  - reflexivity.
  - vm_compute. reflexivity.
  - vm_compute. set_solver.
  - vm_compute in Hmut. injection Hmut as <- _. simpl in Hin.
    apply list_elem_of_singleton in Hin. vm_compute in Hin. discriminate Hin.
Qed.

Lemma create_customer_rejects_case_variant_witness :
  ∃ errors,
    CreateCustomer.mutate demo_store
      (CustomerInput.mk "Eve" "Alice@Example.COM" None) =
      (CreateCustomer.mk None None errors, demo_store) ∧
    "Email already exists." ∈ errors.
Proof.
  apply (create_customer_rejects_case_variant demo_store
           (CustomerInput.mk "Eve" "Alice@Example.COM" None) demo_customer).
  - intros c Hc. apply list_elem_of_singleton in Hc as ->.
    vm_compute. reflexivity.
  - vm_compute. set_solver.
  - vm_compute. reflexivity.
Defined.

Lemma bulk_create_judges_rows_one_by_one_witness :
  ∃ created db',
    BulkCreateCustomers.mutate Store.empty one_bad_one_good =
      Return
        (BulkCreateCustomers.mk created ["Entry 1: Name is required."], db') ∧
    Forall2 Spec.saved_from created
      [Customer.mk None "Carol" "carol@example.com" "123-456-7890"] ∧
    Store.customers db' = created ∧
    length created = 1%nat.
Proof.
  destruct (bulk_create_judges_rows_one_by_one Store.empty one_bad_one_good)
    as (created & db' & Hmut & Hsaved & Hcustomers & Hlen);
    [discriminate|].
  assert (Herrors :
            omap id (imap (Spec.row_error Store.empty one_bad_one_good)
                       one_bad_one_good)
            = ["Entry 1: Name is required."])
    by (vm_compute; reflexivity).
  assert (Hrows :
            omap id (imap (Spec.row_customer Store.empty one_bad_one_good)
                       one_bad_one_good)
            = [Customer.mk None "Carol" "carol@example.com" "123-456-7890"])
    by (vm_compute; reflexivity).
  rewrite Herrors in Hmut, Hlen. rewrite Hrows in Hsaved.
  exists created, db'.
  split_and!; [exact Hmut | exact Hsaved | exact Hcustomers |].
  simpl in Hlen. lia.
Defined.

Example bulk_create_one_bad_one_good :
  BulkCreateCustomers.mutate Store.empty one_bad_one_good =
  Return
    (BulkCreateCustomers.mk
       [Customer.mk (Some 1) "Carol" "carol@example.com" "123-456-7890"]
       ["Entry 1: Name is required."],
     Store.mk
       [Customer.mk (Some 1) "Carol" "carol@example.com" "123-456-7890"]
       [] [] []).
Proof. vm_compute. reflexivity. Qed.

Lemma bulk_create_flags_repeat_of_queued_email_witness :
  ∃ r db' errs errors',
    BulkCreateCustomers.mutate Store.empty
      (repeat_after_queued_row ++
         CustomerInput.mk "Bob" " A@Example.com " None :: []) =
      Return (r, db') ∧
    BulkCreateCustomers.entry (length repeat_after_queued_row) errs ∈
      BulkCreateCustomers.errors r ∧
    "Duplicate email within request." ∈ errs ∧
    ("Email already exists." ∉ errs) ∧
    BulkCreateCustomers.mutate Store.empty (repeat_after_queued_row ++ []) =
      Return
        (BulkCreateCustomers.mk (BulkCreateCustomers.customers r) errors',
         db').
Proof.
  apply (bulk_create_flags_repeat_of_queued_email Store.empty
           repeat_after_queued_row
           (CustomerInput.mk "Bob" " A@Example.com " None) []
           (BulkCreateCustomers.mk
              [Customer.mk (Some 1) "Al" "a@example.com" ""] [])
           (Store.mk [Customer.mk (Some 1) "Al" "a@example.com" ""] [] [] [])
           (Customer.mk (Some 1) "Al" "a@example.com" "")).
  - vm_compute. reflexivity.
  - simpl. set_solver.
  - vm_compute. reflexivity.
Defined.

Lemma filter_queryset_payload_and_errors_witness :
  _filter_queryset [demo_customer] (Some demo_filter_input)
    customer_filter_mapping demo_filterset =
  Raise
    (GraphQLError
       "created_at_gte: Enter a valid date/time.; created_at_lte: Enter a valid date/time.").
Proof.
  destruct (filter_queryset_payload_and_errors demo_filterset [demo_customer]
              (Some demo_filter_input) customer_filter_mapping)
    as (_ & _ & _ & H).
  - vm_compute. repeat constructor; set_solver.
  - rewrite H.
    + vm_compute. reflexivity.
    + simpl. intros E. apply (f_equal (fun m => m !! "name_icontains")) in E.
      vm_compute in E. discriminate E.
    + vm_compute. discriminate.
    + vm_compute. repeat constructor; discriminate.
Defined.

(** ** Rounding to cents *)

Lemma div_half_up_bound n k :
  0 < k → 2 * Z.abs (n - Decimal.div_half_up n k * 10 ^ k) ≤ 10 ^ k.
Proof.
  intros Hk. unfold Decimal.div_half_up.
  assert (Hp : 0 < 10 ^ k) by (apply Z.pow_pos_nonneg; lia).
  set (p := 10 ^ k) in *.
  pose proof (Z.div_mod (Z.abs n) p ltac:(lia)) as Hdm.
  pose proof (Z.mod_pos_bound (Z.abs n) p Hp) as Hr.
  set (q := Z.abs n / p) in *. set (r := Z.abs n mod p) in *.
  destruct (Z.leb_spec p (2 * r)); destruct (Z.sgn_spec n) as [[? ->]|[[? ->]|[? ->]]];
    nia.
Qed.


Lemma quantize_cents_coef d q :
  Decimal.quantize_cents d = Some q →
  Decimal.coef q =
    if -2 <=? Decimal.exp d then Decimal.coef d * 10 ^ (Decimal.exp d + 2)
    else Decimal.div_half_up (Decimal.coef d) (-2 - Decimal.exp d).
Proof.
  unfold Decimal.quantize_cents. destruct (_ <=? Z.abs _); [done|].
  by intros [= <-].
Qed.

(** Property X6. The price that product creation stores has two decimals and is
    the price given rounded half up to cents: counted in any unit
    [10 ^ e] fine enough for the price given, it is the whole number of
    cents nearest to it, a tie going away from zero. *)
Theorem create_product_price_rounded_half_up db input p errors db' :
  CreateProduct.mutate db input =
    Return (CreateProduct.mk (Some p) errors, db') →
  Decimal.exp (Product.price p) = -2 ∧
  ∀ e, e ≤ -2 → e ≤ Decimal.exp (ProductInput.price input) →
       Spec.half_up_cents e (Spec.units e (ProductInput.price input))
         (Decimal.coef (Product.price p)).
Proof.
  intros (_ & _ & Hq & _)%create_product_success.
  split; [by eapply quantize_cents_exp|].
  intros e He Hd. by eapply quantize_cents_half_up.
Qed.


(** ** Outcome of customer creation *)

Lemma extend_phone_errors_nil phone :
  extend_phone_errors [] phone = [] ↔ Spec.phone_accepted phone = true.
Proof.
  unfold extend_phone_errors, Spec.phone_accepted, _validate_phone.
  destruct phone as [p|]; [|done].
  destruct (Py.truthy p && negb (Re.match_ PHONE_REGEX p)); simpl; done.
Qed.

Lemma create_customer_cases db input :
  let name := Py.strip (CustomerInput.name input) in
  let email := Py.lower (Py.strip (CustomerInput.email input)) in
  let c :=
    Customer.mk (Some (Store.next_pk (Store.customer_ids db))) name email
      (Py.strip (or_empty (CustomerInput.phone input))) in
  if Py.truthy name && Spec.phone_accepted (CustomerInput.phone input)
     && negb (Store.email_exists db email)
  then
    CreateCustomer.mutate db input =
      (CreateCustomer.mk (Some c) (Some "Customer created successfully.") [],
       Store.mk (Store.customers db ++ [c]) (Store.products db)
         (Store.orders db) (Store.order_products db))
  else
    ∃ errors,
      errors ≠ [] ∧
      CreateCustomer.mutate db input = (CreateCustomer.mk None None errors, db).
Proof.
  intros name email c. rewrite create_customer_unfold. cbv zeta.
  fold name email.
  destruct (Py.truthy name); simpl.
  - destruct (Spec.phone_accepted (CustomerInput.phone input)) eqn:Hacc;
      simpl.
    + rewrite (proj2 (extend_phone_errors_nil _) Hacc).
      destruct (Store.email_exists db email); simpl; [|done].
      eexists. split; [|done]. done.
    + destruct (extend_phone_errors [] _) as [|e es] eqn:E.
      { apply extend_phone_errors_nil in E. congruence. }
      eexists. split; [|done]. done.
  - eexists. split; [|done]. done.
Qed.

Lemma email_exists_iff db e :
  Store.email_exists db e = true ↔
  ∃ c, c ∈ Store.customers db ∧ Py.lower (Customer.email c) = Py.lower e.
Proof.
  unfold Store.email_exists, Store.iexact. rewrite existsb_exists. split.
  - intros (c & Hc%list_elem_of_In & Heq%String.eqb_eq). by exists c.
  - intros (c & Hc & Heq). exists c.
    split; [by apply list_elem_of_In | by apply String.eqb_eq].
Qed.

Lemma truthy_iff s : Py.truthy s = true ↔ s ≠ "".
Proof. by destruct s. Qed.

(** Property X2. Customer creation saves one customer, with the name, email and
    phone trimmed, the email in lower case and the next free key, and
    adds it to the table, when the trimmed name is not empty, the phone
    is missing, empty or in one of the two formats (possibly followed by
    one line feed), and no stored email equals the new one up to letter
    case; otherwise it changes nothing and reports at least one error. *)
Theorem create_customer_outcome db input :
  let name := Py.strip (CustomerInput.name input) in
  let email := Py.lower (Py.strip (CustomerInput.email input)) in
  let c :=
    Customer.mk (Some (Store.next_pk (Store.customer_ids db))) name email
      (Py.strip (or_empty (CustomerInput.phone input))) in
  let phone_ok :=
    match CustomerInput.phone input with
    | None => True
    | Some p =>
        p = "" ∨ Spec.phone_format p = true ∨
        ∃ q, p = q +:+ String Re.newline "" ∧ Spec.phone_format q = true
    end in
  let accepted :=
    name ≠ "" ∧ phone_ok ∧
    ¬ ∃ s, s ∈ Store.customers db ∧ Py.lower (Customer.email s) = email in
  (accepted →
   CreateCustomer.mutate db input =
     (CreateCustomer.mk (Some c) (Some "Customer created successfully.") [],
      Store.mk (Store.customers db ++ [c]) (Store.products db)
        (Store.orders db) (Store.order_products db))) ∧
  (¬ accepted →
   ∃ errors,
     errors ≠ [] ∧
     CreateCustomer.mutate db input = (CreateCustomer.mk None None errors, db)).
Proof.
  intros name email c phone_ok accepted.
  pose proof (create_customer_cases db input) as H. cbv zeta in H.
  fold name email c in H.
  assert (Hphone : Spec.phone_accepted (CustomerInput.phone input) = true
                   ↔ phone_ok).
  { unfold phone_ok. destruct (CustomerInput.phone input) as [p|].
    - apply validate_phone_accepted_iff.
    - done. }
  assert (Hemail : Store.email_exists db email = true ↔
                   ∃ s, s ∈ Store.customers db ∧
                        Py.lower (Customer.email s) = email).
  { rewrite email_exists_iff. unfold email. by rewrite lower_idem. }
  assert (Hacc : Py.truthy name && Spec.phone_accepted (CustomerInput.phone input)
                 && negb (Store.email_exists db email) = true ↔ accepted).
  { unfold accepted. rewrite !andb_true_iff, negb_true_iff, truthy_iff.
    rewrite Hphone, <- Hemail, not_true_iff_false. tauto. }
  destruct (Py.truthy name && _ && _).
  - split; [done|]. intros Hn. exfalso. by apply Hn, Hacc.
  - split; [|done]. intros Ha%Hacc. done.
Qed.

(** ** Stored phones *)

Lemma isdigit_not_space c : Py.isdigit c = true → Py.isspace c = false.
Proof. destruct c as [[] [] [] [] [] [] [] []]; done. Qed.

Lemma rtrim_noblank s :
  Forall (fun c => Py.isspace c = false) (list_ascii_of_string s) →
  Py.rtrim Py.isspace s = s.
Proof.
  induction s as [|c t IH]; [done|]. simpl.
  intros [Hc Ht]%Forall_cons. rewrite (IH Ht), Hc. by destruct t.
Qed.

Lemma ltrim_noblank s :
  Forall (fun c => Py.isspace c = false) (list_ascii_of_string s) →
  Py.ltrim Py.isspace s = s.
Proof.
  destruct s as [|c t]; [done|]. simpl. intros [Hc _]%Forall_cons.
  by rewrite Hc.
Qed.

Lemma strip_noblank s :
  Forall (fun c => Py.isspace c = false) (list_ascii_of_string s) →
  Py.strip s = s.
Proof.
  intros H. unfold Py.strip, Py.lstrip, Py.rstrip.
  by rewrite ltrim_noblank, rtrim_noblank.
Qed.

Lemma rtrim_noblank_newline s :
  Forall (fun c => Py.isspace c = false) (list_ascii_of_string s) →
  Py.rtrim Py.isspace (s +:+ String Re.newline "") = s.
Proof.
  induction s as [|c t IH]; [done|].
  intros [Hc Ht]%Forall_cons. rewrite append_cons. simpl.
  rewrite (IH Ht), Hc. by destruct t.
Qed.

Lemma strip_noblank_newline s :
  Forall (fun c => Py.isspace c = false) (list_ascii_of_string s) →
  Py.strip (s +:+ String Re.newline "") = s.
Proof.
  intros H. unfold Py.strip, Py.lstrip, Py.rstrip.
  destruct s as [|c t]; [done|].
  rewrite append_cons. simpl Py.ltrim.
  pose proof H as [Hc _]%Forall_cons. rewrite Hc.
  rewrite <- append_cons. by apply rtrim_noblank_newline.
Qed.

Lemma digits_noblank ds :
  Spec.digits ds = true →
  Forall (fun c => Py.isspace c = false) (list_ascii_of_string ds).
Proof.
  unfold Spec.digits. rewrite forallb_forall, Forall_forall.
  intros H c Hc. apply isdigit_not_space, H. by apply list_elem_of_In.
Qed.

Lemma phone_format_noblank q :
  Spec.phone_format q = true →
  Forall (fun c => Py.isspace c = false) (list_ascii_of_string q).
Proof.
  unfold Spec.phone_format. intros [H|H]%orb_true_iff.
  - unfold Spec.plus_digits in H. destruct q as [|c ds]; [done|].
    rewrite !andb_true_iff in H. destruct H as [[[->%Ascii.eqb_eq Hd] _] _].
    constructor; [done|]. by apply digits_noblank.
  - unfold Spec.dashed in H.
    destruct (list_ascii_of_string q)
      as [|a [|b [|c [|d1 [|e [|f [|g [|d2 [|h [|i [|j [|k [|]]]]]]]]]]]]];
      try done.
    simpl in H. rewrite !andb_true_iff in H.
    destruct H as [[(? & ? & ? & ? & ? & ? & ? & ? & ? & ? & _)
                      ->%Ascii.eqb_eq] ->%Ascii.eqb_eq].
    repeat constructor; by apply isdigit_not_space.
Qed.

(** The stripped form of a phone that passes validation is empty or in
    one of the two formats. *)
Lemma accepted_phone_stripped p :
  Spec.phone_accepted (Some p) = true →
  Py.strip p = "" ∨ Spec.phone_format (Py.strip p) = true.
Proof.
  intros [->|[H|(q & -> & H)]]%validate_phone_accepted_iff.
  - by left.
  - right. by rewrite strip_noblank by by apply phone_format_noblank.
  - right. by rewrite strip_noblank_newline by by apply phone_format_noblank.
Qed.

(** ** What each mutation does to the tables *)

Lemma create_customer_effect db input :
  (CreateCustomer.mutate db input).2 = db ∨
  ∃ u,
    (CreateCustomer.mutate db input).2 = (Store.save_customer db u).2 ∧
    Py.lower (Customer.email u) = Customer.email u ∧
    Store.email_exists db (Customer.email u) = false ∧
    (Customer.phone u = "" ∨ Spec.phone_format (Customer.phone u) = true).
Proof.
  rewrite create_customer_unfold. cbv zeta.
  destruct (extend_phone_errors [] (CustomerInput.phone input)) eqn:Hph;
    [|left; by destruct (if Py.truthy _ then _ else _)].
  destruct (Py.truthy (Py.strip (CustomerInput.name input))); [|by left].
  destruct (Store.email_exists db _) eqn:Hex; [by left|].
  right. simpl. eexists (Customer.mk None _ _ _). split; [done|]. simpl.
  split_and!; [apply lower_idem|done|].
  apply extend_phone_errors_nil in Hph.
  destruct (CustomerInput.phone input) as [p|]; [|by left].
  by apply accepted_phone_stripped.
Qed.

Lemma save_customer_tables db u :
  let db' := (Store.save_customer db u).2 in
  Store.customers db' =
    Store.customers db ++
      [Customer.mk (Some (Store.next_pk (Store.customer_ids db)))
         (Customer.name u) (Customer.email u) (Customer.phone u)] ∧
  Store.products db' = Store.products db ∧
  Store.orders db' = Store.orders db ∧
  Store.order_products db' = Store.order_products db.
Proof. done. Qed.

(** The queue of the bulk loop: emails in lower case, pairwise distinct,
    phones well formed. *)
Lemma loop_queue_well_formed ex i xs a :
  Spec.loop_inv ex a →
  NoDup (Customer.email <$> pending a) →
  Forall (fun u => Py.lower (Customer.email u) = Customer.email u ∧
                   (Customer.phone u = "" ∨
                    Spec.phone_format (Customer.phone u) = true))
    (pending a) →
  NoDup (Customer.email <$> pending (loop ex i xs a)) ∧
  Forall (fun u => Py.lower (Customer.email u) = Customer.email u ∧
                   (Customer.phone u = "" ∨
                    Spec.phone_format (Customer.phone u) = true))
    (pending (loop ex i xs a)).
Proof.
  revert i a. induction xs as [|x xs IH]; intros i a Hinv Hnd Hall; simpl;
    [done|].
  apply IH; [by apply body_inv|..]; unfold body;
    destruct (row_errors ex (seen_emails a) x) eqn:E; simpl; try done.
  - apply row_errors_nil in E as (_ & _ & Hseen).
    rewrite fmap_app. apply NoDup_app. split_and!; [done| |apply NoDup_singleton].
    intros e He ->%list_elem_of_singleton. apply Hseen.
    by apply (proj1 Hinv).
  - apply Forall_app. split; [done|]. constructor; [|done]. simpl.
    split; [apply lower_idem|].
    unfold row_errors in E.
    assert (Hph : extend_phone_errors [] (Some (phone_of x)) = []).
    { unfold extend_phone_errors in *.
      destruct (_validate_phone (Some (phone_of x))); [|done].
      by apply app_nil in E as [_ ?]. }
    apply extend_phone_errors_nil in Hph.
    unfold phone_of in *. destruct (CustomerInput.phone x) as [p|]; [|by left].
    destruct (Py.truthy p); [|by left]. simpl in *.
    apply validate_phone_accepted_iff in Hph as [?|[?|(q & Hq & Hf)]].
    + by left.
    + by right.
    + exfalso. pose proof (strip_idem p) as Hidem.
      rewrite Hq in Hidem at 1.
      rewrite strip_noblank_newline in Hidem by by apply phone_format_noblank.
      rewrite Hq in Hidem. apply (f_equal String.length) in Hidem.
      revert Hidem. clear. induction q as [|c q IH]; simpl; [done|].
      intros [= ?]. by apply IH.
Qed.

Lemma bulk_create_effect db input r db' :
  BulkCreateCustomers.mutate db input = Return (r, db') →
  ∃ us,
    db' = (Store.bulk_create db us).2 ∧
    customers r = (Store.bulk_create db us).1 ∧
    NoDup (Customer.email <$> us) ∧
    Forall (fun u =>
              Py.lower (Customer.email u) = Customer.email u ∧
              Store.email_exists db (Customer.email u) = false ∧
              (Customer.phone u = "" ∨
               Spec.phone_format (Customer.phone u) = true)) us ∧
    Forall (fun u => Customer.email u ≠ "") us.
Proof.
  intros Hmut.
  assert (Hne : input ≠ []) by (intros ->; done).
  rewrite bulk_mutate_unfold in Hmut by done. cbv zeta in Hmut.
  set (ex := existing_emails db) in *.
  pose proof (loop_inv_loop ex 0 input init (loop_inv_init ex)) as Hinv.
  destruct (loop_queue_well_formed ex 0 input init (loop_inv_init ex))
    as [Hnd Hall]; [constructor..|].
  exists (pending (loop ex 0 input init)).
  destruct (Store.bulk_create db _) as [created db2] eqn:Hb.
  injection Hmut as <- <-. simpl. split_and!; try done.
  2:{ apply Forall_forall. intros u Hu. destruct Hinv as [_ Hq].
      destruct (Hq (Customer.email u)) as [_ Ht].
      { apply list_elem_of_fmap. eauto. }
      by destruct (Customer.email u). }
  apply Forall_forall. intros u Hu.
  rewrite Forall_forall in Hall. destruct (Hall u Hu) as [Hlow Hph].
  split_and!; try done.
  destruct Hinv as [_ Hq].
  destruct (Hq (Customer.email u)) as [Hex Ht].
  { apply list_elem_of_fmap. eauto. }
  apply not_true_is_false. intros Hexists.
  apply existsb_exists in Hexists as (c & Hc%list_elem_of_In & Hi).
  unfold Store.iexact in Hi. apply String.eqb_eq in Hi.
  rewrite Hlow in Hi. apply Hex. unfold ex, existing_emails.
  apply elem_of_list_to_set, list_elem_of_fmap.
  exists (Customer.email c). split; [done|].
  apply list_elem_of_filter. split.
  - destruct (Customer.email c); [|done]. simpl in Hi.
    rewrite <- Hi in Ht. done.
  - apply list_elem_of_fmap. eauto.
Qed.

Lemma email_exists_false db e :
  Store.email_exists db e = false →
  Py.lower e ∉ Py.lower <$> (Customer.email <$> Store.customers db).
Proof.
  intros Hex (x & Hx & (c & -> & Hc)%list_elem_of_fmap)%list_elem_of_fmap.
  apply not_true_iff_false in Hex. apply Hex.
  apply existsb_exists. exists c. split; [by apply list_elem_of_In|].
  unfold Store.iexact. by apply String.eqb_eq.
Qed.

(** Invariants of the customers table under the insertion of a queue of
    unsaved customers. *)
Lemma bulk_create_keeps_customer_invariants db us :
  NoDup (Py.lower <$> (Customer.email <$> us)) →
  Forall (fun u =>
            (Py.lower (Customer.email u)
               ∉ Py.lower <$> (Customer.email <$> Store.customers db)) ∧
            (Customer.phone u = "" ∨
             Spec.phone_format (Customer.phone u) = true)) us →
  let db' := (Store.bulk_create db us).2 in
  (Inv.emails_unique db → Inv.emails_unique db') ∧
  (Inv.phones_well_formed db → Inv.phones_well_formed db') ∧
  (Forall (fun c => is_Some (Customer.id c)) (Store.customers db) →
   Forall (fun c => is_Some (Customer.id c)) (Store.customers db')) ∧
  (NoDup (Store.customer_ids db) → NoDup (Store.customer_ids db')) ∧
  Store.products db' = Store.products db ∧
  Store.orders db' = Store.orders db ∧
  Store.order_products db' = Store.order_products db ∧
  Store.customers db `prefix_of` Store.customers db'.
Proof.
  revert db. induction us as [|u us IH]; intros db Hnd Hall; cbv zeta.
  { simpl. split_and!; done. }
  assert (Heq : (Store.bulk_create db (u :: us)).2 =
                (Store.bulk_create (Store.save_customer db u).2 us).2).
  { simpl. by destruct (Store.bulk_create _ us). }
  rewrite Heq. clear Heq.
  rewrite !fmap_cons in Hnd. apply NoDup_cons in Hnd as [Hfresh Hnd].
  apply Forall_cons in Hall as [[Hu Hph] Hall].
  set (db1 := (Store.save_customer db u).2).
  specialize (IH db1 Hnd).
  destruct IH as (IHe & IHp & IHs & IHk & IH1 & IH2 & IH3 & IH4).
  { apply Forall_forall. intros v Hv. rewrite Forall_forall in Hall.
    destruct (Hall v Hv) as [Hvn Hvp]. split; [|done].
    unfold db1. simpl. rewrite !fmap_app, elem_of_app. intros [?|Hin]; [done|].
    simpl in Hin. apply list_elem_of_singleton in Hin.
    apply Hfresh. rewrite <- Hin. apply list_elem_of_fmap.
    exists (Customer.email v). split; [done|]. apply list_elem_of_fmap. eauto. }
  fold db1. generalize dependent (Store.bulk_create db1 us).2. intros db2.
  intros. split_and!; try done.
  - intros He. apply IHe. unfold Inv.emails_unique, db1. simpl.
    rewrite !fmap_app. apply NoDup_app. split_and!; [done| |apply NoDup_singleton].
    intros x Hx ->%list_elem_of_singleton. done.
  - intros Hp. apply IHp. unfold db1. intros c. simpl.
    intros [Hc|Hc%list_elem_of_singleton]%elem_of_app; [by apply Hp|].
    by subst c.
  - intros Hs. apply IHs. unfold db1. simpl. apply Forall_app. split; [done|].
    by repeat constructor.
  - intros Hk. apply IHk. unfold db1, Store.customer_ids. simpl.
    rewrite omap_app. simpl. apply NoDup_app.
    split_and!; [done| |apply NoDup_singleton].
    intros x Hx ->%list_elem_of_singleton.
    fold (Store.customer_ids db) in Hx. apply next_pk_fresh in Hx. lia.
  - etrans; [|exact IH4]. unfold db1. simpl. by apply prefix_app_r.
Qed.

Lemma create_product_effect db input r db' :
  CreateProduct.mutate db input = Return (r, db') →
  db' = db ∨
  ∃ q,
    db' = (Store.create_product db (Py.strip (ProductInput.name input)) q
             (default 0 (ProductInput.stock input))).2 ∧
    Decimal.quantize_cents (ProductInput.price input) = Some q ∧
    0 < Decimal.coef (ProductInput.price input) ∧
    0 ≤ default 0 (ProductInput.stock input).
Proof.
  unfold CreateProduct.mutate, Decimal.le_zero.
  destruct (Z.leb_spec (Decimal.coef (ProductInput.price input)) 0);
    destruct (Z.ltb_spec (default 0 (ProductInput.stock input)) 0);
    simpl; try (intros [= <- <-]; by left).
  destruct (Decimal.quantize_cents _) as [q|]; [|done].
  intros [= <- <-]. right. exists q. split_and!; done || lia.
Qed.

Lemma get_customer_elem_of db pk c :
  Store.get_customer db pk = Some c → c ∈ Store.customers db.
Proof.
  unfold Store.get_customer. intros [H _]%find_some.
  by apply list_elem_of_In.
Qed.

Lemma create_order_effect db now input r db' :
  CreateOrder.mutate db now input = Return (r, db') →
  db' = db ∨
  ∃ c total,
    db' = (Store.create_order db c total
             (default now (OrderInput.order_date input))
             (Spec.resolved db input)).2 ∧
    c ∈ Store.customers db ∧
    Decimal.quantize_cents
      (Decimal.sum (Product.price <$> Spec.resolved db input)) = Some total.
Proof.
  rewrite create_order_unfold.
  destruct (Spec.order_checks db input); [|intros [= <- <-]; by left].
  destruct (Decimal.quantize_cents _) as [total|] eqn:Ht; [|done].
  destruct (Py.int _) as [pk|]; [|done]. simpl.
  destruct (Store.get_customer db pk) as [c|] eqn:Hc; [|done].
  intros [= <- <-]. right. exists c, total. split_and!; try done.
  by eapply get_customer_elem_of.
Qed.

Lemma quantize_cents_nonneg d q :
  Decimal.quantize_cents d = Some q → 0 < Decimal.coef d →
  0 ≤ Decimal.coef q.
Proof.
  intros Hq Hpos. rewrite (quantize_cents_coef _ _ Hq).
  destruct (Z.leb_spec (-2) (Decimal.exp d)).
  - assert (0 < 10 ^ (Decimal.exp d + 2)) by (apply Z.pow_pos_nonneg; lia).
    nia.
  - unfold Decimal.div_half_up.
    assert (Hp : 0 < 10 ^ (-2 - Decimal.exp d))
      by (apply Z.pow_pos_nonneg; lia).
    assert (0 ≤ Z.abs (Decimal.coef d) / 10 ^ (-2 - Decimal.exp d))
      by (apply Z.div_pos; lia).
    rewrite Z.sgn_pos by done. destruct (_ <=? _); lia.
Qed.

Lemma resolved_NoDup db input :
  NoDup (Product.id <$> Store.products db) →
  NoDup (Product.id <$> Spec.resolved db input).
Proof. apply NoDup_fmap_filter. Qed.

Lemma resolve_products_ext db db' o o' :
  Store.products db' = Store.products db →
  (∀ x, x ∈ Store.linked_products db' (Order.id o') ↔
        x ∈ Store.linked_products db (Order.id o)) →
  resolve_products db' o' = resolve_products db o.
Proof.
  intros Hp Hl. unfold resolve_products. rewrite Hp.
  apply list_filter_iff. intros p. apply Hl.
Qed.

(** ** The invariants hold in every reachable store *)

Lemma holds_empty : Inv.holds Store.empty.
Proof.
  unfold Inv.holds, Inv.emails_unique, Inv.phones_well_formed,
    Inv.keys_unique, Inv.references_hold, Inv.products_well_formed,
    Inv.totals_hold. simpl.
  split_and!; try apply NoDup_nil_2; try apply Forall_nil_2;
    intros x Hx; by apply elem_of_nil in Hx.
Qed.

Lemma customers_step db us :
  NoDup (Customer.email <$> us) →
  Forall (fun u =>
            Py.lower (Customer.email u) = Customer.email u ∧
            Store.email_exists db (Customer.email u) = false ∧
            (Customer.phone u = "" ∨
             Spec.phone_format (Customer.phone u) = true)) us →
  Inv.holds db → Inv.holds (Store.bulk_create db us).2.
Proof.
  intros Hnd Hall (He & Hp & (Hs & Hk & Hkp & Hko) & (Hr1 & Hr2 & Hr3) & Hw & Ht).
  destruct (bulk_create_keeps_customer_invariants db us)
    as (He' & Hp' & Hs' & Hk' & Hprod & Hord & Hlinks & Hpre).
  { replace (Py.lower <$> (Customer.email <$> us)) with (Customer.email <$> us);
      [done|].
    clear -Hall. induction Hall as [|u us [Hl _] _ IH]; [done|].
    rewrite !fmap_cons. by rewrite Hl, <- IH. }
  { eapply Forall_impl; [exact Hall|]. intros u (_ & Hex & Hph).
    split; [|done]. by apply email_exists_false. }
  generalize dependent (Store.bulk_create db us).2. intros db'. intros.
  unfold Inv.holds, Inv.keys_unique, Inv.references_hold,
    Inv.products_well_formed, Inv.totals_hold.
  rewrite Hprod, Hord, Hlinks. split_and!; auto.
  - intros o Ho. destruct Hpre as [more ->]. apply elem_of_app. left. auto.
  - intros o Ho. rewrite <- (Ht o Ho).
    rewrite (resolve_products_ext db db' o o); [done..|].
    unfold Store.linked_products. by rewrite Hlinks.
Qed.

Lemma product_step db name q stock :
  Decimal.exp q = -2 → 0 ≤ Decimal.coef q → 0 ≤ stock →
  Inv.holds db → Inv.holds (Store.create_product db name q stock).2.
Proof.
  intros Hexp Hcoef Hstock
    (He & Hp & (Hs & Hk & Hkp & Hko) & (Hr1 & Hr2 & Hr3) & Hw & Ht).
  unfold Inv.holds, Inv.keys_unique, Inv.references_hold,
    Inv.products_well_formed, Inv.totals_hold. simpl.
  split_and!; try done.
  - rewrite fmap_app. apply NoDup_app.
    split_and!; [done| |apply NoDup_singleton].
    intros x Hx Hx'%list_elem_of_singleton. simpl in Hx'.
    apply next_pk_fresh in Hx. lia.
  - intros l Hl. destruct (Hr2 l Hl) as [H1 H2]. split; [done|].
    rewrite fmap_app. apply elem_of_app. by left.
  - intros p [Hp'|Hp'%list_elem_of_singleton]%elem_of_app; [by apply Hw|].
    by subst p.
  - intros o Ho. rewrite <- (Ht o Ho). unfold resolve_products. simpl.
    rewrite filter_app, filter_cons_False, filter_nil, app_nil_r; [done|].
    simpl. unfold Store.linked_products.
    intros (l & Hl2 & [_ Hl]%list_elem_of_filter)%list_elem_of_fmap.
    destruct (Hr2 l Hl) as [_ Hin]. rewrite <- Hl2 in Hin.
    apply next_pk_fresh in Hin. lia.
Qed.

Lemma linked_products_create_order db c total date ps oid :
  let db' := (Store.create_order db c total date ps).2 in
  let new_id := Store.next_pk (Order.id <$> Store.orders db) in
  Store.linked_products db' oid =
    Store.linked_products db oid ++
    (if decide (oid = new_id) then Product.id <$> ps else []).
Proof.
  cbv zeta. unfold Store.linked_products. simpl.
  rewrite filter_app, fmap_app. f_equal.
  case_decide as Hd.
  - subst oid. apply new_links_of_order.
  - induction ps as [|p ps IH]; [done|].
    rewrite fmap_cons, filter_cons_False; [done|]. simpl. congruence.
Qed.

Lemma NoDup_links_of_order (k : Z) (ps : list Product.t) :
  NoDup (Product.id <$> ps) →
  NoDup ((fun p => (k, Product.id p)) <$> ps).
Proof.
  induction ps as [|p ps IH]; [constructor|].
  rewrite !fmap_cons. intros [Hp Hps]%NoDup_cons. apply NoDup_cons.
  split; [|by apply IH].
  intros (p' & [= Heq] & Hin)%list_elem_of_fmap. apply Hp.
  rewrite Heq. apply list_elem_of_fmap. eauto.
Qed.

Lemma filter_ext_in {A} (P Q : A → Prop) `{∀ x, Decision (P x)}
    `{∀ x, Decision (Q x)} (l : list A) :
  (∀ x, x ∈ l → (P x ↔ Q x)) → filter P l = filter Q l.
Proof.
  induction l as [|a l IH]; intros Hext; [done|].
  assert (Ha : P a ↔ Q a) by (apply Hext; by left).
  assert (Hl : filter P l = filter Q l)
    by (apply IH; intros x Hx; apply Hext; by right).
  destruct (decide (P a)) as [HP|HP].
  - rewrite !filter_cons_True by tauto. by rewrite Hl.
  - rewrite !filter_cons_False by tauto. done.
Qed.

Lemma order_step db c total date input :
  c ∈ Store.customers db →
  Decimal.quantize_cents
    (Decimal.sum (Product.price <$> Spec.resolved db input)) = Some total →
  Inv.holds db →
  Inv.holds (Store.create_order db c total date (Spec.resolved db input)).2.
Proof.
  intros Hc Htotal
    (He & Hp & (Hs & Hk & Hkp & Hko) & (Hr1 & Hr2 & Hr3) & Hw & Ht).
  set (ps := Spec.resolved db input) in *.
  set (oid := Store.next_pk (Order.id <$> Store.orders db)).
  assert (Hold : ∀ l, l ∈ Store.order_products db → l.1 ≠ oid).
  { intros l Hl Heq. destruct (Hr2 l Hl) as [Hin _].
    apply next_pk_fresh in Hin. unfold oid in Heq. lia. }
  assert (Hnone : Store.linked_products db oid = []).
  { apply list_nil_of_no_elem. unfold Store.linked_products.
    intros x (l & _ & [Heq Hl]%list_elem_of_filter)%list_elem_of_fmap.
    by apply (Hold l). }
  unfold Inv.holds, Inv.keys_unique, Inv.references_hold,
    Inv.products_well_formed, Inv.totals_hold.
  split_and!; try done.
  - simpl. rewrite fmap_app. apply NoDup_app.
    split_and!; [done| |apply NoDup_singleton].
    intros x Hx Hx'%list_elem_of_singleton. simpl in Hx'.
    apply next_pk_fresh in Hx. lia.
  - simpl. intros o [Ho|Ho%list_elem_of_singleton]%elem_of_app; [by apply Hr1|].
    by subst o.
  - simpl. intros l [Hl|Hl]%elem_of_app.
    + destruct (Hr2 l Hl) as [H1 H2]. split; [|done].
      rewrite fmap_app. apply elem_of_app. by left.
    + apply list_elem_of_fmap in Hl as (p & -> & Hp'). simpl. split.
      * rewrite fmap_app. apply elem_of_app. right. by left.
      * apply list_elem_of_fmap. exists p. split; [done|].
        by apply elem_of_products_in in Hp' as [? _].
  - simpl. apply NoDup_app. split_and!; [done| |].
    + intros l Hl (p & -> & _)%list_elem_of_fmap. by apply (Hold _ Hl).
    + apply NoDup_links_of_order. by apply resolved_NoDup.
  - intros o Ho. unfold resolve_products.
    rewrite linked_products_create_order. fold oid.
    replace (Store.products (Store.create_order db c total date ps).2)
      with (Store.products db) by done.
    simpl in Ho. apply elem_of_app in Ho as [Ho|Ho%list_elem_of_singleton].
    + rewrite decide_False, app_nil_r.
      * by apply Ht.
      * intros Heq. assert (Hin : Order.id o ∈ Order.id <$> Store.orders db)
          by (apply list_elem_of_fmap; eauto).
        apply next_pk_fresh in Hin. unfold oid in Heq. lia.
    + subst o. simpl. rewrite decide_True by done. fold oid.
      rewrite Hnone, app_nil_l. rewrite <- Htotal. do 3 f_equal.
      unfold ps, Spec.resolved, Store.products_in.
      apply filter_ext_in. intros p Hp'. split.
      * intros (p' & Heq & [Hin _]%list_elem_of_filter)%list_elem_of_fmap.
        by rewrite Heq.
      * intros Hin. apply list_elem_of_fmap. exists p. split; [done|].
        by apply list_elem_of_filter.
Qed.

Lemma reachable_invariants db : Spec.reachable db → Inv.holds db.
Proof.
  induction 1 as [|db input _ IH|db input r db' _ IH Hmut
                  |db input r db' _ IH Hmut|db now input r db' _ IH Hmut].
  - apply holds_empty.
  - destruct (create_customer_effect db input)
      as [->|(u & -> & Hlow & Hex & Hph)]; [done|].
    apply (customers_step db [u]); [|by apply Forall_singleton|done].
    rewrite fmap_cons. apply NoDup_singleton.
  - apply bulk_create_effect in Hmut as (us & -> & _ & Hnd & Hall & _).
    by apply customers_step.
  - apply create_product_effect in Hmut as [->|(q & -> & Hq & Hpos & Hst)];
      [done|].
    apply product_step; try done.
    + by eapply quantize_cents_exp.
    + by eapply quantize_cents_nonneg.
  - apply create_order_effect in Hmut as [->|(c & total & -> & Hc & Ht)];
      [done|].
    by apply order_step.
Qed.


(** Property X15. In every store that the mutations build, a stored phone is empty
    or in one of the two formats. *)
Theorem reachable_phones_well_formed db :
  Spec.reachable db → Inv.phones_well_formed db.
Proof. intros H. apply (reachable_invariants db H). Qed.

(** Property X16. In every store that the mutations build, every customer has a key
    and keys are unique within each table. *)
Theorem reachable_keys_unique db :
  Spec.reachable db → Inv.keys_unique db.
Proof. intros H. apply (reachable_invariants db H). Qed.

(** Property X17. In every store that the mutations build, orders belong to stored
    customers and link rows tie stored orders to stored products, each
    pair once. *)
Theorem reachable_references_hold db :
  Spec.reachable db → Inv.references_hold db.
Proof. intros H. apply (reachable_invariants db H). Qed.

(** Property X18. In every store that the mutations build, prices have two decimals
    and are not negative, and stocks are not negative. *)
Theorem reachable_products_well_formed db :
  Spec.reachable db → Inv.products_well_formed db.
Proof. intros H. apply (reachable_invariants db H). Qed.

Lemma half_up_whole_cents n q : Spec.half_up_cents (-2) n q → q = n.
Proof.
  unfold Spec.half_up_cents. change (10 ^ (-2 - -2)) with 1.
  intros [Hs Hb]. nia.
Qed.

(** Property X19. In every store that the mutations build, the total of an order has
    two decimals and is the exact sum of the prices of the products it
    resolves to. *)
Theorem reachable_totals_exact db :
  Spec.reachable db → Inv.totals_exact db.
Proof.
  intros H. destruct (reachable_invariants db H)
    as (_ & _ & _ & _ & Hprod & Htot).
  intros o Ho. specialize (Htot o Ho).
  assert (Hfine : Forall (fun d => -2 ≤ Decimal.exp d)
                    (Product.price <$> resolve_products db o)).
  { apply Forall_fmap, Forall_forall. intros p [_ Hp]%list_elem_of_filter.
    simpl. destruct (Hprod p Hp) as (-> & _). done. }
  destruct (sum_half_up (-2) _ _ ltac:(lia) Hfine Htot) as [He Hh].
  split; [done|]. by apply half_up_whole_cents.
Qed.

(** ** More on order creation *)

Lemma StronglySorted_le_lt (l : list Z) :
  StronglySorted Z.le l → NoDup l → StronglySorted Z.lt l.
Proof.
  induction 1 as [|x l Hl IH Hx]; intros Hnd; [constructor|].
  apply NoDup_cons in Hnd as [Hnot Hnd]. constructor; [by apply IH|].
  rewrite Forall_forall in Hx |- *. intros y Hy.
  specialize (Hx y Hy). assert (x ≠ y) by (intros ->; done). lia.
Qed.

(** Property X8. The ids reported as missing are exactly the parsed ids without a
    stored product, each once, in increasing order. *)
Theorem missing_ids_sorted_once db input :
  StronglySorted Z.lt (Spec.missing db input) ∧
  ∀ x, x ∈ Spec.missing db input ↔
       x ∈ Spec.parsed_ids input ∧ x ∉ Product.id <$> Store.products db.
Proof.
  split; [|apply elem_of_missing].
  unfold Spec.missing, CreateOrder.missing_product_ids, Py.sorted.
  apply StronglySorted_le_lt.
  - apply (StronglySorted_merge_sort Z.le).
  - rewrite merge_sort_Permutation. apply NoDup_elements.
Qed.

Lemma order_checks_nil db input :
  Spec.order_checks db input = [] ↔
  (∃ pk c, Py.int (Some (OrderInput.customer_id input)) = Some pk ∧
           Store.get_customer db pk = Some c) ∧
  Forall (fun raw_id => is_Some (Py.int raw_id))
    (OrderInput.product_ids input) ∧
  OrderInput.product_ids input ≠ [] ∧
  ∀ x, x ∈ Spec.parsed_ids input → x ∈ Product.id <$> Store.products db.
Proof.
  unfold Spec.order_checks, Spec.customer_id_errors, Spec.product_id_errors,
    Spec.no_product_errors, Spec.customer_errors, Spec.missing_errors.
  assert (Hfil : filter (fun raw_id => Py.int raw_id = None)
                   (OrderInput.product_ids input) = [] ↔
                 Forall (fun raw_id => is_Some (Py.int raw_id))
                   (OrderInput.product_ids input)).
  { induction (OrderInput.product_ids input) as [|raw rest IH].
    - split; [constructor|done].
    - destruct (Py.int raw) as [n|] eqn:Hraw.
      + rewrite filter_cons_False by congruence. rewrite IH, Forall_cons.
        rewrite Hraw. split; [eauto|tauto].
      + rewrite filter_cons_True by done. split; [done|].
        intros [[? ?] _]%Forall_cons. congruence. }
  assert (Hids : Spec.distinct_ids input = [] ↔ Spec.parsed_ids input = []).
  { unfold Spec.distinct_ids.
    split; intros E; apply list_nil_of_no_elem; intros x Hx.
    - apply elem_of_fromkeys in Hx. rewrite E in Hx.
      by apply elem_of_nil in Hx.
    - apply elem_of_fromkeys in Hx. rewrite E in Hx.
      by apply elem_of_nil in Hx. }
  assert (Hmiss : Spec.missing db input = [] ↔
                  ∀ x, x ∈ Spec.parsed_ids input →
                       x ∈ Product.id <$> Store.products db).
  { split.
    - intros E x Hx.
      destruct (decide (x ∈ Product.id <$> Store.products db)); [done|].
      assert (Hm : x ∈ Spec.missing db input) by by apply elem_of_missing.
      rewrite E in Hm. by apply elem_of_nil in Hm.
    - intros H. apply list_nil_of_no_elem.
      intros x [Hx Hn]%elem_of_missing. by apply Hn, H. }
  split.
  - intros E. apply app_nil in E as [E1 E]. apply app_nil in E as [E2 E].
    apply app_nil in E as [E3 E]. apply app_nil in E as [E4 E5].
    destruct (Py.int (Some _)) as [pk|] eqn:Hpk; [|done].
    destruct (Store.get_customer db pk) as [c|] eqn:Hget; [|done].
    apply fmap_nil_inv in E2. apply Hfil in E2.
    destruct (Spec.distinct_ids input) eqn:Hd; [done|].
    destruct (Spec.missing db input) eqn:Hm; [|done].
    split_and!; [eauto|done| |].
    + intros Hnil. assert (Spec.parsed_ids input = []) as Hp
        by (rewrite parsed_ids_omap, Hnil; done).
      apply Hids in Hp. congruence.
    + by apply Hmiss.
  - intros ((pk & c & -> & ->) & Hall & Hne & Hres).
    apply Hfil in Hall. rewrite Hall. apply Hmiss in Hres. rewrite Hres.
    assert (Hd : Spec.distinct_ids input ≠ []).
    { intros Hd%Hids. rewrite parsed_ids_omap in Hd. apply Hfil in Hall.
      destruct (OrderInput.product_ids input) as [|raw rest]; [done|].
      apply Forall_cons in Hall as [[n Hn] _]. simpl in Hd.
      by rewrite Hn in Hd. }
    by destruct (Spec.distinct_ids input).
Qed.

(** Property X9. Order creation succeeds as soon as the customer id names a stored
    customer, the id list is not empty, every id parses and names a
    stored product, and the total fits the decimal context; the order
    then carries that customer, the quantized total and the given or
    current date. *)
Theorem create_order_succeeds db now input pk c total :
  Py.int (Some (OrderInput.customer_id input)) = Some pk →
  Store.get_customer db pk = Some c →
  Forall (fun raw_id => is_Some (Py.int raw_id))
    (OrderInput.product_ids input) →
  OrderInput.product_ids input ≠ [] →
  (∀ x, x ∈ Spec.parsed_ids input → x ∈ Product.id <$> Store.products db) →
  Decimal.quantize_cents
    (Decimal.sum (Product.price <$> Spec.resolved db input)) = Some total →
  CreateOrder.mutate db now input =
    Return
      (CreateOrder.mk
         (Some (Order.mk (Store.next_pk (Order.id <$> Store.orders db)) c
                  total (default now (OrderInput.order_date input)))) [],
       (Store.create_order db c total
          (default now (OrderInput.order_date input))
          (Spec.resolved db input)).2).
Proof.
  intros Hpk Hget Hall Hne Hres Htotal.
  rewrite create_order_unfold.
  rewrite (proj2 (order_checks_nil db input)) by eauto 10.
  rewrite Htotal, Hpk. simpl. by rewrite Hget.
Qed.

(** Property X10. Order creation writes nothing unless it succeeds, and a success
    adds one order under a fresh key and link rows of that order only. *)
Theorem create_order_outcome db now input r db' :
  CreateOrder.mutate db now input = Return (r, db') →
  (CreateOrder.order r = None ∧ CreateOrder.errors r ≠ [] ∧ db' = db) ∨
  (∃ o,
     CreateOrder.order r = Some o ∧ CreateOrder.errors r = [] ∧
     Store.customers db' = Store.customers db ∧
     Store.products db' = Store.products db ∧
     Store.orders db' = Store.orders db ++ [o] ∧
     (Order.id o ∉ Order.id <$> Store.orders db) ∧
     Order.customer o ∈ Store.customers db ∧
     Order.order_date o = default now (OrderInput.order_date input) ∧
     ∀ oid, oid ≠ Order.id o →
            Store.linked_products db' oid = Store.linked_products db oid).
Proof.
  rewrite create_order_unfold.
  destruct (Spec.order_checks db input) eqn:Hchecks;
    [|intros [= <- <-]; by left].
  destruct (Decimal.quantize_cents _) as [total|] eqn:Ht; [|done].
  destruct (Py.int _) as [pk|]; [|done]. simpl.
  destruct (Store.get_customer db pk) as [c|] eqn:Hc; [|done].
  intros [= <- <-]. right. eexists. simpl. split_and!; try done.
  - simpl. intros Hin%next_pk_fresh. lia.
  - by eapply get_customer_elem_of.
  - intros oid Hoid. simpl in Hoid.
    etrans; [apply (linked_products_create_order db c total
                      (default now (OrderInput.order_date input))
                      (Spec.resolved db input) oid)|].
    rewrite decide_False by done. apply app_nil_r.
Qed.


(** ** Printing integers *)









(** ** More on bulk creation *)


Lemma truthy_lower s : Py.truthy (Py.lower s) = Py.truthy s.
Proof. by destruct s. Qed.

Lemma not_in_existing_emails db e :
  Py.lower e = e → Store.email_exists db e = false →
  e ∉ existing_emails db.
Proof.
  intros Hlow Hex Hin. apply not_true_iff_false in Hex. apply Hex.
  unfold existing_emails in Hin.
  apply elem_of_list_to_set, list_elem_of_fmap in Hin as (x & -> & Hx).
  apply list_elem_of_filter in Hx as [_ Hx].
  apply list_elem_of_fmap in Hx as (c & -> & Hc).
  apply existsb_exists. exists c. split; [by apply list_elem_of_In|].
  unfold Store.iexact. apply String.eqb_eq. by rewrite lower_idem.
Qed.

(** Property X5. Whatever single creation accepts with a non-blank email, bulk
    creation of that one row accepts too, saving the same customer and
    leaving the same store. *)
Theorem bulk_of_one_matches_create db input c message db' :
  CreateCustomer.mutate db input =
    (CreateCustomer.mk (Some c) message [], db') →
  Py.strip (CustomerInput.email input) ≠ "" →
  BulkCreateCustomers.mutate db [input] =
    Return (BulkCreateCustomers.mk [c] [], db').
Proof.
  intros Hmut Hemail. rewrite create_customer_unfold in Hmut.
  cbv zeta in Hmut.
  destruct (Py.truthy (Py.strip (CustomerInput.name input))) eqn:Hname;
    [|done].
  destruct (extend_phone_errors [] (CustomerInput.phone input)) eqn:Hph;
    [|done].
  destruct (Store.email_exists db _) eqn:Hex; [done|].
  simpl in Hmut. injection Hmut as <- _ <-.
  apply extend_phone_errors_nil in Hph.
  assert (Hphone : phone_of input =
                   Py.strip (or_empty (CustomerInput.phone input))).
  { unfold phone_of.
    destruct (CustomerInput.phone input) as [[|a p]|]; reflexivity. }
  assert (Hrow : row_errors (existing_emails db) ∅ input = []).
  { unfold row_errors. unfold name_of, email_of. rewrite Hname.
    rewrite truthy_lower.
    assert (Py.truthy (Py.strip (CustomerInput.email input)) = true) as ->
      by by destruct (Py.strip (CustomerInput.email input)).
    simpl.
    rewrite bool_decide_eq_false_2
      by (apply not_in_existing_emails; [apply lower_idem|done]).
    rewrite bool_decide_eq_false_2 by set_solver.
    apply extend_phone_errors_nil. rewrite Hphone.
    apply validate_phone_accepts_formats.
    destruct (CustomerInput.phone input) as [p|]; simpl; [|by right; left].
    right. destruct (accepted_phone_stripped p Hph) as [->|Hf];
      [by left|right; eauto]. }
  unfold BulkCreateCustomers.mutate. simpl. unfold body. simpl.
  rewrite Hrow. simpl. unfold name_of, email_of. by rewrite Hphone.
Qed.

(** ** List queries *)

Section ResolverFacts.

Context {Value Queryset : Type}.
Implicit Types (fs : FilterSet Value Queryset)
  (fi : gmap string (option Value)).


Lemma identity_payload fi (keys : list string) :
  NoDup keys →
  build_payload fi ((fun k => (k, k)) <$> keys) ∅ =
  filter (fun kv => kv.1 ∈ keys) (omap id fi).
Proof.
  intros Hnd. apply map_eq. intros k.
  assert (Hsnd : ((fun k => (k, k)) <$> keys).*2 = keys).
  { rewrite <- list_fmap_compose. apply list_fmap_id. }
  destruct (decide (k ∈ keys)) as [Hk|Hk].
  - rewrite (build_payload_lookup fi _ ∅ k k); [|by rewrite Hsnd| |done].
    + symmetry. unfold getattr.
      destruct (fi !! k) as [[v|]|] eqn:E; simpl.
      * apply map_lookup_filter_Some. split; [|done].
        rewrite lookup_omap, E. done.
      * apply map_lookup_filter_None. left. rewrite lookup_omap, E. done.
      * apply map_lookup_filter_None. left. rewrite lookup_omap, E. done.
    + apply list_elem_of_fmap. eauto.
  - rewrite build_payload_lookup_fresh by by rewrite Hsnd.
    rewrite lookup_empty. symmetry. apply map_lookup_filter_None.
    right. intros v _. done.
Qed.

Lemma resolve_all_identity (qs_order_by : list (option string) → Queryset → Queryset)
    fs (all : Queryset) (keys : list string)
    (filter_input : option (gmap string (option Value)))
    (order_by : ordering) :
  NoDup keys →
  let fi := default ∅ filter_input in
  let payload : gmap string Value :=
    filter (fun kv => kv.1 ∈ keys) (omap id fi) in
  resolve_all qs_order_by all ((fun k => (k, k)) <$> keys) fs filter_input
    order_by =
  if bool_decide (fi = ∅) || is_valid fs payload all
  then Return (_apply_ordering qs_order_by (fs_qs fs payload all) order_by)
  else
    Raise (GraphQLError
             (str_or (Py.join "; " (error_messages (fs_errors fs payload all)))
                "Invalid filter arguments.")).
Proof.
  intros Hnd. cbv zeta. unfold resolve_all, _filter_queryset.
  assert (Hempty :
    filter (fun kv : string * Value => kv.1 ∈ keys)
      (omap id (∅ : gmap string (option Value))) = ∅).
  { by rewrite omap_empty, map_filter_empty. }
  destruct filter_input as [m|]; simpl.
  - case_bool_decide as Hm; simpl.
    + subst m. by rewrite Hempty.
    + rewrite identity_payload by done.
      by destruct (is_valid fs _ all).
  - rewrite bool_decide_eq_true_2 by done. simpl. by rewrite Hempty.
Qed.

(** Property X13. Each of the three list resolvers hands its filter-set the filter
    input without its null and unknown fields, returns the filtered
    queryset with the ordering applied when the input is empty or
    accepted, and raises the filter error otherwise, before any
    ordering. *)
Theorem list_resolvers_filter_then_order
    (qs_order_by : list (option string) → Queryset → Queryset)
    (CustomerFilter ProductFilter OrderFilter : FilterSet Value Queryset)
    (customers products orders : Queryset)
    (filter_input : option (gmap string (option Value)))
    (order_by : ordering) :
  let fi := default ∅ filter_input in
  let payload (mapping : list (string * string)) : gmap string Value :=
    filter (fun kv => kv.1 ∈ mapping.*1) (omap id fi) in
  let answer fs (all : Queryset) (mapping : list (string * string)) :=
    if bool_decide (fi = ∅) || is_valid fs (payload mapping) all
    then
      Return
        (_apply_ordering qs_order_by (fs_qs fs (payload mapping) all) order_by)
    else
      Raise (GraphQLError
               (str_or
                  (Py.join "; "
                     (error_messages (fs_errors fs (payload mapping) all)))
                  "Invalid filter arguments.")) in
  resolve_all_customers qs_order_by customers CustomerFilter filter_input
    order_by = answer CustomerFilter customers customer_filter_mapping ∧
  resolve_all_products qs_order_by products ProductFilter filter_input
    order_by = answer ProductFilter products product_filter_mapping ∧
  resolve_all_orders qs_order_by orders OrderFilter filter_input
    order_by = answer OrderFilter orders order_filter_mapping.
Proof.
  intros fi payload answer.
  assert (Hc : NoDup customer_filter_mapping.*1)
    by (vm_compute; repeat constructor; set_solver).
  assert (Hp : NoDup product_filter_mapping.*1)
    by (vm_compute; repeat constructor; set_solver).
  assert (Ho : NoDup order_filter_mapping.*1)
    by (vm_compute; repeat constructor; set_solver).
  split_and!.
  - exact (resolve_all_identity qs_order_by CustomerFilter customers
             customer_filter_mapping.*1 filter_input order_by Hc).
  - exact (resolve_all_identity qs_order_by ProductFilter products
             product_filter_mapping.*1 filter_input order_by Hp).
  - exact (resolve_all_identity qs_order_by OrderFilter orders
             order_filter_mapping.*1 filter_input order_by Ho).
Qed.

End ResolverFacts.

(** ** Seeding *)

Import SeedDb.

Lemma filter_snoc_other {A} (P : A → Prop) `{∀ x, Decision (P x)}
    (l : list A) (x : A) : ¬ P x → filter P (l ++ [x]) = filter P l.
Proof.
  intros Hx. rewrite filter_app, filter_cons_False, filter_nil by done.
  apply app_nil_r.
Qed.

Lemma get_or_create_customer_spec db email name phone c db' :
  get_or_create_customer db email name phone = inr (c, db') →
  filter (fun c => Customer.email c = email) (Store.customers db') = [c] ∧
  (∀ e, e ≠ email →
        filter (fun c => Customer.email c = e) (Store.customers db') =
        filter (fun c => Customer.email c = e) (Store.customers db)) ∧
  Store.customers db `prefix_of` Store.customers db' ∧
  Store.products db' = Store.products db ∧
  Store.orders db' = Store.orders db ∧
  Store.order_products db' = Store.order_products db.
Proof.
  unfold get_or_create_customer.
  destruct (filter _ (Store.customers db)) as [|c1 [|c2 rest]] eqn:E;
    [| |done].
  - intros [= <- <-]. simpl. split_and!; try done.
    + rewrite filter_app, E, filter_cons_True by done. done.
    + intros e He. apply filter_snoc_other. simpl. congruence.
    + by apply prefix_app_r.
  - intros [= <- <-]. split_and!; done.
Qed.

Lemma get_or_create_customer_again db email name phone c :
  filter (fun c => Customer.email c = email) (Store.customers db) = [c] →
  get_or_create_customer db email name phone = inr (c, db).
Proof. unfold get_or_create_customer. by intros ->. Qed.

Lemma get_or_create_customer_several db email name phone :
  (2 ≤ length (filter (fun c => Customer.email c = email)
                 (Store.customers db)))%nat →
  get_or_create_customer db email name phone = inl MultipleObjectsReturned.
Proof.
  unfold get_or_create_customer.
  destruct (filter _ (Store.customers db)) as [|c1 [|c2 rest]]; simpl;
    [lia|lia|done].
Qed.

Lemma get_or_create_customer_error db email name phone e :
  get_or_create_customer db email name phone = inl e →
  e = MultipleObjectsReturned.
Proof.
  unfold get_or_create_customer.
  destruct (filter _ (Store.customers db)) as [|c1 [|c2 rest]]; try done.
  by intros [= <-].
Qed.

Lemma seed_customers_spec payloads db acc objs db' :
  seed_customers payloads db acc = inr (objs, db') →
  (∃ new, objs = acc ++ new ∧ length new = length payloads) ∧
  (∀ e, e ∉ Py.lower <$> payloads.*1.*2 →
        filter (fun c => Customer.email c = e) (Store.customers db') =
        filter (fun c => Customer.email c = e) (Store.customers db)) ∧
  Store.customers db `prefix_of` Store.customers db' ∧
  Store.products db' = Store.products db ∧
  Store.orders db' = Store.orders db ∧
  Store.order_products db' = Store.order_products db.
Proof.
  revert db acc. induction payloads as [|[[name email] phone] rest IH];
    intros db acc; simpl.
  - intros [= <- <-]. split_and!; try done. exists []. by rewrite app_nil_r.
  - destruct (get_or_create_customer db (Py.lower email) name phone)
      as [e|[c db1]] eqn:Hg; [done|].
    apply get_or_create_customer_spec in Hg as (_ & Hother & Hpre & Hp & Ho & Hl).
    intros ((new & -> & Hlen) & Hother' & Hpre' & Hp' & Ho' & Hl')%IH.
    split_and!.
    + exists (c :: new). rewrite <- app_assoc. simpl. by rewrite Hlen.
    + intros e He. simpl in He.
      apply not_elem_of_cons in He as [He1 He2].
      rewrite Hother' by done. by apply Hother.
    + by etrans.
    + congruence.
    + congruence.
    + congruence.
Qed.

Lemma seed_customers_again payloads db acc objs db' :
  NoDup (Py.lower <$> payloads.*1.*2) →
  seed_customers payloads db acc = inr (objs, db') →
  ∀ db2 acc2,
    Store.customers db2 = Store.customers db' →
    seed_customers payloads db2 acc2 =
      inr (acc2 ++ drop (length acc) objs, db2).
Proof.
  revert db acc objs.
  induction payloads as [|[[name email] phone] rest IH];
    intros db acc objs Hnd.
  - simpl. intros [= <- <-] db2 acc2 _. by rewrite drop_all, app_nil_r.
  - rewrite !fmap_cons in Hnd. apply NoDup_cons in Hnd as [Hfresh Hnd].
    simpl seed_customers.
    destruct (get_or_create_customer db (Py.lower email) name phone)
      as [e|[c db1]] eqn:Hg; [done|].
    apply get_or_create_customer_spec in Hg as (Hone & _).
    intros Hrest db2 acc2 Hdb2.
    pose proof (seed_customers_spec _ _ _ _ _ Hrest)
      as ((new & Hobjs & _) & Hother & _).
    assert (Hagain : filter (fun c => Customer.email c = Py.lower email)
                       (Store.customers db2) = [c]).
    { rewrite Hdb2. rewrite Hother by exact Hfresh. done. }
    rewrite (get_or_create_customer_again db2 (Py.lower email) name phone c
               Hagain).
    rewrite (IH _ _ _ Hnd Hrest db2 (acc2 ++ [c]) Hdb2).
    subst objs. rewrite drop_app_length.
    rewrite <- (app_assoc acc [c] new), drop_app_length.
    by rewrite <- app_assoc.
Qed.

Lemma get_or_create_product_spec db name price stock p db' :
  get_or_create_product db name price stock = inr (p, db') →
  filter (fun p => Product.name p = name) (Store.products db') = [p] ∧
  (∀ n, n ≠ name →
        filter (fun p => Product.name p = n) (Store.products db') =
        filter (fun p => Product.name p = n) (Store.products db)) ∧
  Store.products db `prefix_of` Store.products db' ∧
  Store.customers db' = Store.customers db ∧
  Store.orders db' = Store.orders db ∧
  Store.order_products db' = Store.order_products db.
Proof.
  unfold get_or_create_product.
  destruct (filter _ (Store.products db)) as [|p1 [|p2 rest]] eqn:E;
    [| |done].
  - intros [= <- <-]. simpl. split_and!; try done.
    + rewrite filter_app, E, filter_cons_True by done. done.
    + intros n Hn. apply filter_snoc_other. simpl. congruence.
    + by apply prefix_app_r.
  - intros [= <- <-]. split_and!; done.
Qed.

Lemma get_or_create_product_again db name price stock p :
  filter (fun p => Product.name p = name) (Store.products db) = [p] →
  get_or_create_product db name price stock = inr (p, db).
Proof. unfold get_or_create_product. by intros ->. Qed.

Lemma get_or_create_product_error db name price stock e :
  get_or_create_product db name price stock = inl e →
  e = MultipleObjectsReturned.
Proof.
  unfold get_or_create_product.
  destruct (filter _ (Store.products db)) as [|p1 [|p2 rest]]; try done.
  by intros [= <-].
Qed.

Lemma seed_products_spec payloads db acc objs db' :
  seed_products payloads db acc = inr (objs, db') →
  (∃ new, objs = acc ++ new ∧ length new = length payloads) ∧
  (∀ n, n ∉ payloads.*1.*1 →
        filter (fun p => Product.name p = n) (Store.products db') =
        filter (fun p => Product.name p = n) (Store.products db)) ∧
  Store.products db `prefix_of` Store.products db' ∧
  Store.customers db' = Store.customers db ∧
  Store.orders db' = Store.orders db ∧
  Store.order_products db' = Store.order_products db.
Proof.
  revert db acc. induction payloads as [|[[name price] stock] rest IH];
    intros db acc; simpl.
  - intros [= <- <-]. split_and!; try done. exists []. by rewrite app_nil_r.
  - destruct (get_or_create_product db name price stock)
      as [e|[p db1]] eqn:Hg; [done|].
    apply get_or_create_product_spec in Hg as (_ & Hother & Hpre & Hp & Ho & Hl).
    intros ((new & -> & Hlen) & Hother' & Hpre' & Hp' & Ho' & Hl')%IH.
    split_and!.
    + exists (p :: new). rewrite <- app_assoc. simpl. by rewrite Hlen.
    + intros n Hn. simpl in Hn.
      apply not_elem_of_cons in Hn as [Hn1 Hn2].
      rewrite Hother' by done. by apply Hother.
    + by etrans.
    + congruence.
    + congruence.
    + congruence.
Qed.

Lemma seed_products_again payloads db acc objs db' :
  NoDup payloads.*1.*1 →
  seed_products payloads db acc = inr (objs, db') →
  ∀ db2 acc2,
    Store.products db2 = Store.products db' →
    seed_products payloads db2 acc2 =
      inr (acc2 ++ drop (length acc) objs, db2).
Proof.
  revert db acc objs.
  induction payloads as [|[[name price] stock] rest IH];
    intros db acc objs Hnd.
  - simpl. intros [= <- <-] db2 acc2 _. by rewrite drop_all, app_nil_r.
  - rewrite !fmap_cons in Hnd. apply NoDup_cons in Hnd as [Hfresh Hnd].
    simpl seed_products.
    destruct (get_or_create_product db name price stock)
      as [e|[p db1]] eqn:Hg; [done|].
    apply get_or_create_product_spec in Hg as (Hone & _).
    intros Hrest db2 acc2 Hdb2.
    pose proof (seed_products_spec _ _ _ _ _ Hrest)
      as ((new & Hobjs & _) & Hother & _).
    assert (Hagain : filter (fun p => Product.name p = name)
                       (Store.products db2) = [p]).
    { rewrite Hdb2. rewrite Hother by exact Hfresh. done. }
    rewrite (get_or_create_product_again db2 name price stock p Hagain).
    rewrite (IH _ _ _ Hnd Hrest db2 (acc2 ++ [p]) Hdb2).
    subst objs. rewrite drop_app_length.
    rewrite <- (app_assoc acc [p] new), drop_app_length.
    by rewrite <- app_assoc.
Qed.

Lemma filter_all {A} (P : A → Prop) `{∀ x, Decision (P x)} (l : list A) :
  Forall P l → filter P l = l.
Proof.
  induction 1 as [|x l Hx _ IH]; [done|].
  by rewrite filter_cons_True, IH.
Qed.

Lemma set_products_links db oid ps x :
  x ∈ Store.linked_products (set_products db oid ps) oid ↔
  x ∈ Product.id <$> ps.
Proof.
  unfold set_products, Store.linked_products. simpl.
  rewrite filter_app, fmap_app, elem_of_app. split.
  - intros [(l & -> & Hl)%list_elem_of_fmap|(l & -> & Hl)%list_elem_of_fmap].
    + apply list_elem_of_filter in Hl as [Hoid Hl].
      apply list_elem_of_filter in Hl as [Hkeep _].
      destruct (decide (l.2 ∈ Product.id <$> ps)); [done|].
      exfalso. by apply Hkeep.
    + apply list_elem_of_filter in Hl as [_ Hl].
      apply list_elem_of_fmap in Hl as (i & -> & Hi).
      apply list_elem_of_filter in Hi as [_ Hi].
      simpl. exact (proj1 (elem_of_fromkeys _ _) Hi).
  - intros Hx.
    destruct (decide (x ∈ (filter (fun l : Z * Z => l.1 = oid)
                             (Store.order_products db)).*2)) as [Hold|Hnew].
    + left. apply list_elem_of_fmap in Hold as (l & -> & Hl).
      apply list_elem_of_fmap. exists l. split; [done|].
      apply list_elem_of_filter in Hl as [Hoid Hl].
      apply list_elem_of_filter. split; [done|].
      apply list_elem_of_filter. split; [|done]. intros [_ Hn]. done.
    + right. apply list_elem_of_fmap. exists (oid, x). split; [done|].
      apply list_elem_of_filter. split; [done|].
      apply list_elem_of_fmap. exists x. split; [done|].
      apply list_elem_of_filter. split; [done|].
      exact (proj2 (elem_of_fromkeys _ _) Hx).
Qed.

Lemma set_products_other db oid ps oid' :
  oid' ≠ oid →
  Store.linked_products (set_products db oid ps) oid' =
  Store.linked_products db oid'.
Proof.
  intros Hne. unfold set_products, Store.linked_products. simpl.
  rewrite filter_app, fmap_app.
  replace (filter (fun l : Z * Z => l.1 = oid')
             ((fun i => (oid, i)) <$> _)) with (@nil (Z * Z)).
  - rewrite app_nil_r. f_equal. rewrite list_filter_filter.
    apply list_filter_iff. intros l. split; [tauto|].
    intros Hl. split; [done|]. intros [Heq _]. congruence.
  - symmetry. apply list_nil_of_no_elem.
    intros l [Hl (i & -> & _)%list_elem_of_fmap]%list_elem_of_filter.
    simpl in Hl. congruence.
Qed.

Lemma set_products_fixed db oid ps :
  (∀ x, x ∈ Store.linked_products db oid ↔ x ∈ Product.id <$> ps) →
  set_products db oid ps = db.
Proof.
  intros Hsame. unfold set_products.
  replace (filter (fun i => i ∉ Store.linked_products db oid)
             (Py.fromkeys (Product.id <$> ps))) with (@nil Z).
  - replace (filter _ (Store.order_products db))
      with (Store.order_products db).
    + simpl. rewrite app_nil_r. by destruct db.
    + symmetry. apply filter_all. apply Forall_forall.
      intros l Hl [Hoid Hn]. apply Hn, Hsame.
      unfold Store.linked_products. apply list_elem_of_fmap.
      exists l. split; [done|]. by apply list_elem_of_filter.
  - symmetry. apply list_nil_of_no_elem.
    intros i [Hi Hin]%list_elem_of_filter. apply Hi, Hsame.
    exact (proj1 (elem_of_fromkeys _ _) Hin).
Qed.

Lemma set_products_idem db oid ps :
  set_products (set_products db oid ps) oid ps = set_products db oid ps.
Proof. apply set_products_fixed. intros x. apply set_products_links. Qed.

Lemma get_or_create_order_spec db customer total now o db' :
  get_or_create_order db customer total now = inr (o, db') →
  filter (fun o => Customer.id (Order.customer o) = Customer.id customer)
    (Store.orders db') = [o] ∧
  Store.orders db `prefix_of` Store.orders db' ∧
  Store.customers db' = Store.customers db ∧
  Store.products db' = Store.products db ∧
  Store.order_products db' = Store.order_products db.
Proof.
  unfold get_or_create_order.
  destruct (filter _ (Store.orders db)) as [|o1 [|o2 rest]] eqn:E;
    [| |done].
  - intros [= <- <-]. simpl. split_and!; try done.
    + rewrite filter_app, E, filter_cons_True by done. done.
    + by apply prefix_app_r.
  - intros [= <- <-]. split_and!; done.
Qed.

Lemma get_or_create_order_again db customer total now o :
  filter (fun o => Customer.id (Order.customer o) = Customer.id customer)
    (Store.orders db) = [o] →
  get_or_create_order db customer total now = inr (o, db).
Proof. unfold get_or_create_order. by intros ->. Qed.

Lemma get_or_create_order_several db customer total now :
  (2 ≤ length (filter (fun o => Customer.id (Order.customer o) =
                                Customer.id customer)
                 (Store.orders db)))%nat →
  get_or_create_order db customer total now = inl MultipleObjectsReturned.
Proof.
  unfold get_or_create_order.
  destruct (filter _ (Store.orders db)) as [|o1 [|o2 rest]]; simpl;
    [lia|lia|done].
Qed.

Lemma get_or_create_product_several db name price stock :
  (2 ≤ length (filter (fun p => Product.name p = name)
                 (Store.products db)))%nat →
  get_or_create_product db name price stock = inl MultipleObjectsReturned.
Proof.
  unfold get_or_create_product.
  destruct (filter _ (Store.products db)) as [|p1 [|p2 rest]]; simpl;
    [lia|lia|done].
Qed.

Lemma seed_customers_error payloads db acc e :
  seed_customers payloads db acc = inl e → e = MultipleObjectsReturned.
Proof.
  revert db acc. induction payloads as [|[[name email] phone] rest IH];
    intros db acc; simpl; [done|].
  destruct (get_or_create_customer db (Py.lower email) name phone)
    as [e'|[c db1]] eqn:Hg.
  - intros [= <-]. by eapply get_or_create_customer_error.
  - apply IH.
Qed.

Lemma seed_products_several payloads db acc name :
  name ∈ payloads.*1.*1 →
  (2 ≤ length (filter (fun p => Product.name p = name)
                 (Store.products db)))%nat →
  seed_products payloads db acc = inl MultipleObjectsReturned.
Proof.
  revert db acc. induction payloads as [|[[n price] stock] rest IH];
    intros db acc Hin Hlen.
  - by apply elem_of_nil in Hin.
  - simpl.
    destruct (get_or_create_product db n price stock)
      as [e|[p db1]] eqn:Hg.
    + f_equal. by eapply get_or_create_product_error.
    + destruct (decide (n = name)) as [->|Hne].
      * by rewrite get_or_create_product_several in Hg.
      * apply get_or_create_product_spec in Hg as (_ & Hother & _).
        apply IH.
        -- rewrite !fmap_cons in Hin. simpl in Hin.
           apply elem_of_cons in Hin as [Hin|Hin]; [congruence|done].
        -- rewrite Hother by congruence. done.
Qed.

(** After the first loop every payload has exactly one row, the object
    that the loop collected for it. *)
Lemma seed_customers_rows payloads db acc objs db' :
  NoDup (Py.lower <$> payloads.*1.*2) →
  seed_customers payloads db acc = inr (objs, db') →
  Forall2 (fun payload c =>
             filter (fun c => Customer.email c = Py.lower payload.1.2)
               (Store.customers db') = [c])
    payloads (drop (length acc) objs).
Proof.
  revert db acc.
  induction payloads as [|[[name email] phone] rest IH];
    intros db acc Hnd.
  - simpl. intros [= <- <-]. rewrite drop_all. constructor.
  - rewrite !fmap_cons in Hnd. apply NoDup_cons in Hnd as [Hfresh Hnd].
    simpl seed_customers.
    destruct (get_or_create_customer db (Py.lower email) name phone)
      as [e|[c db1]] eqn:Hg; [done|].
    apply get_or_create_customer_spec in Hg as (Hone & _).
    intros Hrest.
    pose proof (seed_customers_spec _ _ _ _ _ Hrest)
      as ((new & Hobjs & _) & Hother & _).
    pose proof (IH _ _ Hnd Hrest) as Hall.
    subst objs. rewrite drop_app_length in Hall.
    rewrite <- app_assoc, drop_app_length. simpl.
    constructor; [|done]. simpl. rewrite Hother by exact Hfresh. done.
Qed.

Lemma seed_products_rows payloads db acc objs db' :
  NoDup (payloads.*1.*1) →
  seed_products payloads db acc = inr (objs, db') →
  Forall2 (fun payload p =>
             filter (fun p => Product.name p = payload.1.1)
               (Store.products db') = [p])
    payloads (drop (length acc) objs).
Proof.
  revert db acc.
  induction payloads as [|[[name price] stock] rest IH];
    intros db acc Hnd.
  - simpl. intros [= <- <-]. rewrite drop_all. constructor.
  - rewrite !fmap_cons in Hnd. apply NoDup_cons in Hnd as [Hfresh Hnd].
    simpl seed_products.
    destruct (get_or_create_product db name price stock)
      as [e|[p db1]] eqn:Hg; [done|].
    apply get_or_create_product_spec in Hg as (Hone & _).
    intros Hrest.
    pose proof (seed_products_spec _ _ _ _ _ Hrest)
      as ((new & Hobjs & _) & Hother & _).
    pose proof (IH _ _ Hnd Hrest) as Hall.
    subst objs. rewrite drop_app_length in Hall.
    rewrite <- app_assoc, drop_app_length. simpl.
    constructor; [|done]. simpl. rewrite Hother by exact Hfresh. done.
Qed.

Lemma NoDup_seed_emails : NoDup (Py.lower <$> CUSTOMERS.*1.*2).
Proof. apply (bool_decide_unpack _). by vm_compute. Qed.

Lemma NoDup_seed_names : NoDup (PRODUCTS.*1.*1).
Proof. apply (bool_decide_unpack _). by vm_compute. Qed.

Lemma seed_unfold db now db' :
  seed db now = inr db' →
  ∃ cobjs pobjs dbA dbB,
    seed_customers CUSTOMERS db [] = inr (cobjs, dbA) ∧
    seed_products PRODUCTS dbA [] = inr (pobjs, dbB) ∧
    seed_order dbB now cobjs pobjs = inr db'.
Proof.
  unfold seed, seed_with.
  destruct (seed_customers CUSTOMERS db []) as [e|[cobjs dbA]] eqn:HA;
    [done|].
  destruct (seed_products PRODUCTS dbA []) as [e|[pobjs dbB]] eqn:HB;
    [done|].
  intros HO. by exists cobjs, pobjs, dbA, dbB.
Qed.

(** What the last step of [seed] leaves behind. *)
Lemma seed_order_spec db now c cs p ps db' :
  seed_order db now (c :: cs) (p :: ps) = inr db' →
  ∃ o,
    filter (fun o => Customer.id (Order.customer o) = Customer.id c)
      (Store.orders db') = [o] ∧
    Store.orders db `prefix_of` Store.orders db' ∧
    Store.customers db' = Store.customers db ∧
    Store.products db' = Store.products db ∧
    (∀ x, x ∈ Store.linked_products db' (Order.id o) ↔
          x ∈ Product.id <$> take 2 (p :: ps)) ∧
    (∀ oid, oid ≠ Order.id o →
            Store.linked_products db' oid = Store.linked_products db oid).
Proof.
  unfold seed_order.
  destruct (Decimal.quantize_cents _) as [total|]; [|done].
  destruct (get_or_create_order db c total now) as [e|[o db1]] eqn:Hg;
    [done|].
  apply get_or_create_order_spec in Hg as (Hone & Hpre & Hc & Hp & Hl).
  intros [= <-]. exists o. split_and!; try done.
  - intros x. apply set_products_links.
  - intros oid Hne. rewrite set_products_other by done.
    unfold Store.linked_products. by rewrite Hl.
Qed.

Lemma seed_order_again db now now' cobjs pobjs db' :
  seed_order db now cobjs pobjs = inr db' →
  Store.customers db' = Store.customers db ∧
  Store.products db' = Store.products db ∧
  seed_order db' now' cobjs pobjs = inr db'.
Proof.
  unfold seed_order.
  destruct cobjs as [|c cs]; [by intros [= <-]|].
  destruct pobjs as [|p ps]; [by intros [= <-]|].
  destruct (Decimal.quantize_cents _) as [total|]; [|done].
  destruct (get_or_create_order db c total now) as [e|[o db1]] eqn:Hg;
    [done|].
  apply get_or_create_order_spec in Hg as (Hone & Hpre & Hc & Hp & Hl).
  intros [= <-]. split_and!; try done.
  rewrite (get_or_create_order_again _ c total now' o) by exact Hone.
  by rewrite set_products_idem.
Qed.

(** Property X21. Seeding a store that was already seeded changes nothing: every
    [get_or_create] finds its row and [set] finds the links in place. *)
Theorem seed_twice db now now' db' :
  seed db now = inr db' → seed db' now' = inr db'.
Proof.
  intros (cobjs & pobjs & dbA & dbB & HA & HB & HO)%seed_unfold.
  pose proof (seed_products_spec _ _ _ _ _ HB) as (_ & _ & _ & HBc & _).
  destruct (seed_order_again _ _ now' _ _ _ HO) as (Hc & Hp & Hagain).
  unfold seed, seed_with.
  rewrite (seed_customers_again _ _ _ _ _ NoDup_seed_emails HA db' [])
    by congruence.
  rewrite (seed_products_again _ _ _ _ _ NoDup_seed_names HB db' [])
    by congruence.
  simpl. by rewrite !drop_0.
Qed.

Lemma Forall2_elem_of_l {A B} (P : A → B → Prop) l k x :
  Forall2 P l k → x ∈ l → ∃ y, y ∈ k ∧ P x y.
Proof.
  induction 1 as [|a b l k Hab _ IH]; intros Hx.
  - by apply elem_of_nil in Hx.
  - apply elem_of_cons in Hx as [->|Hx].
    + exists b. split; [left|done].
    + destruct (IH Hx) as (y & Hy & HP). exists y. split; [by right|done].
Qed.

(** Property X22. A successful [seed] keeps the rows that were there and leaves
    exactly one customer per seed email and one product per seed name. *)
Theorem seed_one_row_per_payload db now db' :
  seed db now = inr db' →
  Store.customers db `prefix_of` Store.customers db' ∧
  Store.products db `prefix_of` Store.products db' ∧
  Store.orders db `prefix_of` Store.orders db' ∧
  (∀ payload, payload ∈ CUSTOMERS →
     ∃ c, filter (fun c => Customer.email c = Py.lower payload.1.2)
            (Store.customers db') = [c]) ∧
  (∀ payload, payload ∈ PRODUCTS →
     ∃ p, filter (fun p => Product.name p = payload.1.1)
            (Store.products db') = [p]).
Proof.
  intros (cobjs & pobjs & dbA & dbB & HA & HB & HO)%seed_unfold.
  pose proof (seed_customers_spec _ _ _ _ _ HA)
    as (_ & _ & HApre & HAp & HAo & _).
  pose proof (seed_products_spec _ _ _ _ _ HB)
    as (_ & _ & HBpre & HBc & HBo & _).
  pose proof (seed_customers_rows _ _ _ _ _ NoDup_seed_emails HA) as HAr.
  pose proof (seed_products_rows _ _ _ _ _ NoDup_seed_names HB) as HBr.
  simpl in HAr, HBr. rewrite ?drop_0 in HAr. rewrite ?drop_0 in HBr.
  assert (Store.customers db' = Store.customers dbA ∧
          Store.products db' = Store.products dbB ∧
          Store.orders dbB `prefix_of` Store.orders db')
    as (Hc & Hp & Ho).
  { destruct cobjs as [|c cs]; [by inversion HAr|].
    destruct pobjs as [|p ps]; [by inversion HBr|].
    apply seed_order_spec in HO as (o & _ & Hpre & Hc & Hp & _).
    split_and!; [congruence|congruence|done]. }
  split_and!.
  - by rewrite Hc.
  - rewrite Hp. by rewrite <- HAp.
  - by rewrite <- HAo, <- HBo.
  - intros payload Hin. rewrite Hc.
    destruct (Forall2_elem_of_l _ _ _ _ HAr Hin) as (c & _ & Hrow).
    by exists c.
  - intros payload Hin. rewrite Hp.
    destruct (Forall2_elem_of_l _ _ _ _ HBr Hin) as (p & _ & Hrow).
    by exists p.
Qed.

(** Property X23. After a successful [seed] the first seed customer has exactly one
    order, linked to exactly the first two seed products; the links of
    the other orders are as before. *)
Theorem seed_links_first_order db now db' :
  seed db now = inr db' →
  ∃ c p1 p2 o,
    filter (fun c => Customer.email c = "alice@example.com")
      (Store.customers db') = [c] ∧
    filter (fun p => Product.name p = "Laptop") (Store.products db') = [p1] ∧
    filter (fun p => Product.name p = "Smartphone") (Store.products db')
      = [p2] ∧
    filter (fun o => Customer.id (Order.customer o) = Customer.id c)
      (Store.orders db') = [o] ∧
    (∀ x, x ∈ Store.linked_products db' (Order.id o) ↔
          x = Product.id p1 ∨ x = Product.id p2) ∧
    (∀ oid, oid ≠ Order.id o →
            Store.linked_products db' oid = Store.linked_products db oid).
Proof.
  intros (cobjs & pobjs & dbA & dbB & HA & HB & HO)%seed_unfold.
  pose proof (seed_customers_spec _ _ _ _ _ HA)
    as (_ & _ & _ & _ & _ & HAl).
  pose proof (seed_products_spec _ _ _ _ _ HB)
    as (_ & _ & _ & HBc & _ & HBl).
  pose proof (seed_customers_rows _ _ _ _ _ NoDup_seed_emails HA) as HAr.
  pose proof (seed_products_rows _ _ _ _ _ NoDup_seed_names HB) as HBr.
  simpl in HAr, HBr. rewrite ?drop_0 in HAr. rewrite ?drop_0 in HBr.
  unfold CUSTOMERS in HAr. unfold PRODUCTS in HBr.
  inversion HAr as [|? c ? cs Hc _]; subst.
  inversion HBr as [|? p1 ? ps Hp1 HBr']; subst.
  inversion HBr' as [|? p2 ? ps' Hp2 _]; subst.
  apply seed_order_spec in HO as (o & Ho & _ & Hcs & Hps & Hl & Hother).
  exists c, p1, p2, o. split_and!.
  - rewrite Hcs, HBc. exact Hc.
  - rewrite Hps. exact Hp1.
  - rewrite Hps. exact Hp2.
  - exact Ho.
  - intros x. rewrite Hl. simpl. set_solver.
  - intros oid Hne. rewrite Hother by done.
    unfold Store.linked_products. by rewrite HBl, HAl.
Qed.

(** Property X24. [seed] aborts with [MultipleObjectsReturned] when the store holds
    two or more products under the name of a seed product. *)
Theorem seed_rejects_repeated_product_name db now payload :
  payload ∈ PRODUCTS →
  (2 ≤ length (filter (fun p => Product.name p = payload.1.1)
                 (Store.products db)))%nat →
  seed db now = inl MultipleObjectsReturned.
Proof.
  intros Hin Hlen. unfold seed, seed_with.
  destruct (seed_customers CUSTOMERS db []) as [e|[cobjs dbA]] eqn:HA.
  - f_equal. by eapply seed_customers_error.
  - pose proof (seed_customers_spec _ _ _ _ _ HA) as (_ & _ & _ & HAp & _).
    rewrite (seed_products_several PRODUCTS dbA [] payload.1.1); [done| |].
    + apply list_elem_of_fmap. exists payload.1. split; [done|].
      apply list_elem_of_fmap. by exists payload.
    + by rewrite HAp.
Qed.

Lemma NoDup_fmap_eq {A B} (f : A → B) (l : list A) x y :
  NoDup (f <$> l) → x ∈ l → y ∈ l → f x = f y → x = y.
Proof.
  induction l as [|a l IH]; intros Hnd Hx Hy Heq.
  - by apply elem_of_nil in Hx.
  - rewrite fmap_cons in Hnd. apply NoDup_cons in Hnd as [Ha Hnd].
    apply elem_of_cons in Hx as [->|Hx];
      apply elem_of_cons in Hy as [->|Hy]; try done.
    + exfalso. apply Ha. rewrite Heq. by apply list_elem_of_fmap_2.
    + exfalso. apply Ha. rewrite <- Heq. by apply list_elem_of_fmap_2.
    + by apply IH.
Qed.

(** Property X25. The lookup of [seed] is by the exact email, so a stored customer
    whose email differs from a seed email only by letter case is not
    found, and the seeded store holds both emails. *)
Theorem seed_adds_case_variant db now db' payload c :
  seed db now = inr db' →
  payload ∈ CUSTOMERS →
  c ∈ Store.customers db →
  Py.lower (Customer.email c) = Py.lower payload.1.2 →
  Customer.email c ≠ Py.lower payload.1.2 →
  ¬ Inv.emails_unique db'.
Proof.
  intros (cobjs & pobjs & dbA & dbB & HA & HB & HO)%seed_unfold
    Hin Hc Hlow Hne Huniq.
  pose proof (seed_customers_spec _ _ _ _ _ HA) as (_ & _ & HApre & _).
  pose proof (seed_products_spec _ _ _ _ _ HB) as (_ & _ & _ & HBc & _).
  pose proof (seed_customers_rows _ _ _ _ _ NoDup_seed_emails HA) as HAr.
  simpl in HAr. rewrite ?drop_0 in HAr.
  assert (Hcs : Store.customers db' = Store.customers dbA).
  { destruct (seed_order_again _ _ now _ _ _ HO) as (Hcs & _). congruence. }
  destruct (Forall2_elem_of_l _ _ _ _ HAr Hin) as (c' & _ & Hrow).
  assert (Hc' : c' ∈ filter (fun c => Customer.email c = Py.lower payload.1.2)
                       (Store.customers dbA))
    by (rewrite Hrow; left).
  apply list_elem_of_filter in Hc' as [He' Hc'].
  unfold Inv.emails_unique in Huniq. rewrite Hcs, <- list_fmap_compose in Huniq.
  assert (c = c') as ->.
  { apply (NoDup_fmap_eq _ _ _ _ Huniq).
    - destruct HApre as [k ->]. apply elem_of_app. by left.
    - done.
    - simpl. rewrite Hlow, He'. by rewrite lower_idem. }
  done.
Qed.

(** Property X1. [_validate_phone] returns the phone as given exactly when it is
    empty or in one of the two formats, possibly followed by one line
    feed; any other phone raises the one validation message. *)
Theorem validate_phone_result p :
  let ok :=
    p = "" ∨ Spec.phone_format p = true ∨
    ∃ q, p = q +:+ String Re.newline "" ∧ Spec.phone_format q = true in
  (ok → _validate_phone (Some p) = inr (Some p)) ∧
  (¬ ok →
   _validate_phone (Some p) =
     inl ["Phone number must be +<digits> or 123-456-7890 format."]).
Proof.
  cbv zeta. rewrite <- validate_phone_accepted_iff.
  unfold Spec.phone_accepted, _validate_phone.
  destruct (Py.truthy p && negb (Re.match_ PHONE_REGEX p)); split; done.
Qed.


(** ** More worked instances *)

Lemma session_store_reachable : Spec.reachable session_store.
Proof.
  apply (Spec.reachable_create_order
           (Store.mk (Store.customers session_store)
              (Store.products session_store) [] [])
           0 (OrderInput.mk "1" [Some "1"; Some "2"] None)
           (CreateOrder.mk (Some demo_order) []));
    [|vm_compute; reflexivity].
  apply (Spec.reachable_create_product
           (Store.mk [demo_customer]
              [Product.mk 1 "Laptop" (Decimal.mk 99999 (-2)) 10] [] [])
           (ProductInput.mk "Headphones" (Decimal.mk 19950 (-2)) (Some 50))
           (CreateProduct.mk
              (Some (Product.mk 2 "Headphones" (Decimal.mk 19950 (-2)) 50))
              []));
    [|vm_compute; reflexivity].
  apply (Spec.reachable_create_product
           (Store.mk [demo_customer] [] [] [])
           (ProductInput.mk "Laptop" (Decimal.mk 99999 (-2)) (Some 10))
           (CreateProduct.mk
              (Some (Product.mk 1 "Laptop" (Decimal.mk 99999 (-2)) 10)) []));
    [|vm_compute; reflexivity].
  exact (Spec.reachable_create_customer Store.empty
           (CustomerInput.mk "Alice" "alice@example.com" (Some "+1234567890"))
           Spec.reachable_empty).
Qed.

Lemma create_product_price_rounded_half_up_witness :
  CreateProduct.mutate Store.empty pen_input =
    Return (CreateProduct.mk (Some pen) [], Store.mk [] [pen] [] []) ∧
  Product.price pen = Decimal.mk 101 (-2) ∧
  Spec.half_up_cents (-3) 1005 101.
Proof.
  assert (Hmut : CreateProduct.mutate Store.empty pen_input =
                 Return (CreateProduct.mk (Some pen) [],
                         Store.mk [] [pen] [] []))
    by (vm_compute; reflexivity).
  destruct (create_product_price_rounded_half_up Store.empty pen_input pen []
              (Store.mk [] [pen] [] []) Hmut) as [_ Hround].
  split_and!; [exact Hmut | reflexivity |].
  apply (Hround (-3)); [lia | vm_compute; discriminate].
Defined.



Lemma reachable_phones_well_formed_witness :
  Inv.phones_well_formed session_store.
Proof.
  exact (reachable_phones_well_formed session_store session_store_reachable).
Defined.

Lemma reachable_keys_unique_witness : Inv.keys_unique session_store.
Proof.
  exact (reachable_keys_unique session_store session_store_reachable).
Defined.

Lemma reachable_references_hold_witness : Inv.references_hold session_store.
Proof.
  exact (reachable_references_hold session_store session_store_reachable).
Defined.

Lemma reachable_products_well_formed_witness :
  Inv.products_well_formed session_store.
Proof.
  exact (reachable_products_well_formed session_store
           session_store_reachable).
Defined.

Lemma reachable_totals_exact_witness : Inv.totals_exact session_store.
Proof.
  exact (reachable_totals_exact session_store session_store_reachable).
Defined.

Lemma create_order_succeeds_witness :
  CreateOrder.mutate demo_store 0 demo_order_input =
  Return (CreateOrder.mk (Some demo_order) [], demo_store_after).
Proof.
  etrans.
  - apply (create_order_succeeds demo_store 0 demo_order_input 1
             demo_customer (Decimal.mk 119949 (-2))).
    + vm_compute. reflexivity.
    + vm_compute. reflexivity.
    + repeat constructor; eexists; vm_compute; reflexivity.
    + discriminate.
    + intros x Hx. vm_compute in Hx. vm_compute. set_solver.
    + vm_compute. reflexivity.
  - vm_compute. reflexivity.
Defined.

Lemma create_order_outcome_witness :
  Store.orders demo_store_after = Store.orders demo_store ++ [demo_order] ∧
  ∀ oid, oid ≠ 1 →
         Store.linked_products demo_store_after oid =
         Store.linked_products demo_store oid.
Proof.
  destruct (create_order_outcome demo_store 0 demo_order_input
              (CreateOrder.mk (Some demo_order) []) demo_store_after)
    as [(Hnone & _)|(o & Ho & _ & _ & _ & Horders & _ & _ & _ & Hlinks)].
  - vm_compute. reflexivity.
  - discriminate Hnone.
  - injection Ho as <-. split; [exact Horders | exact Hlinks].
Defined.




Lemma bulk_of_one_matches_create_witness :
  BulkCreateCustomers.mutate Store.empty [carol_input] =
  Return (mk [carol] [], Store.mk [carol] [] [] []).
Proof.
  apply (bulk_of_one_matches_create Store.empty carol_input carol
           (Some "Customer created successfully.")).
  - vm_compute. reflexivity.
  - vm_compute. discriminate.
Defined.


Lemma seed_twice_witness : seed seeded_store 9 = inr seeded_store.
Proof.
  apply (seed_twice Store.empty 7 9 seeded_store). vm_compute. reflexivity.
Defined.

Lemma seed_one_row_per_payload_witness :
  Store.customers session_store `prefix_of`
    Store.customers session_store_seeded ∧
  Store.products session_store `prefix_of`
    Store.products session_store_seeded ∧
  ∃ p, filter (fun p => Product.name p = "Smartphone")
         (Store.products session_store_seeded) = [p].
Proof.
  destruct (seed_one_row_per_payload session_store 7 session_store_seeded)
    as (Hc & Hp & _ & _ & Hrow).
  - vm_compute. reflexivity.
  - split_and!; [exact Hc | exact Hp |].
    apply (Hrow ("Smartphone", Decimal.mk 69900 (-2), 25)).
    unfold PRODUCTS. set_solver.
Defined.

Lemma seed_links_first_order_witness :
  ∃ o p1 p2,
    o ∈ Store.orders session_store_seeded ∧
    p1 ∈ Store.products session_store_seeded ∧
    p2 ∈ Store.products session_store_seeded ∧
    Product.name p1 = "Laptop" ∧ Product.name p2 = "Smartphone" ∧
    ∀ x, x ∈ Store.linked_products session_store_seeded (Order.id o) ↔
         x = Product.id p1 ∨ x = Product.id p2.
Proof.
  destruct (seed_links_first_order session_store 7 session_store_seeded)
    as (c & p1 & p2 & o & _ & Hp1 & Hp2 & Ho & Hl & _).
  - vm_compute. reflexivity.
  - assert (H1 : p1 ∈ [p1]) by left. rewrite <- Hp1 in H1.
    assert (H2 : p2 ∈ [p2]) by left. rewrite <- Hp2 in H2.
    assert (H3 : o ∈ [o]) by left. rewrite <- Ho in H3.
    apply list_elem_of_filter in H1 as [? ?].
    apply list_elem_of_filter in H2 as [? ?].
    apply list_elem_of_filter in H3 as [_ ?].
    exists o, p1, p2. split_and!; assumption.
Defined.

Lemma seed_rejects_repeated_product_name_witness :
  seed two_laptops 0 = inl MultipleObjectsReturned.
Proof.
  apply (seed_rejects_repeated_product_name two_laptops 0
           ("Laptop", Decimal.mk 99999 (-2), 10)).
  - unfold PRODUCTS. set_solver.
  - vm_compute. lia.
Defined.

Lemma seed_adds_case_variant_witness :
  seed case_variant_store 7 = inr case_variant_seeded ∧
  ¬ Inv.emails_unique case_variant_seeded.
Proof.
  assert (H : seed case_variant_store 7 = inr case_variant_seeded)
    by (vm_compute; reflexivity).
  split; [exact H|].
  apply (seed_adds_case_variant case_variant_store 7 case_variant_seeded
           ("Alice Johnson", "alice@example.com", "+1234567890")
           case_variant_customer H).
  - unfold CUSTOMERS. set_solver.
  - unfold case_variant_store. simpl. set_solver.
  - vm_compute. reflexivity.
  - vm_compute. discriminate.
Defined.

